(** * TemperatureController: a shallow embedding of the ATtiny84A sketch

    The development embeds the final iteration of the controller
    (TemperatureController.ino together with the StatusLeds class) and proves
    properties of its heater state machine, its display state machine, the
    setpoint and sensor conversions and the cooperative scheduler.

    Conventions of the embedding:
    - [float] values are IEEE-754 binary32 values, taken from the Standard
      Library's executable specification [SpecFloat] at precision 24 and
      maximal exponent 128.  On the AVR target of the sketch both [float]
      and [double] are 32 bits wide, so every literal and every operation of
      the source is a binary32 one, rounded to nearest-even.
    - [unsigned long] values are integers of [Z] reduced modulo 2^32; the
      wrap-around of the subtraction is written out ([usub]).
    - the Arduino primitives are the boundary of the model: [millis] and
      [analogRead] are inputs of a loop iteration, and the calls of
      [analogRead] and [digitalWrite] are recorded, in program order, in a
      trace of events.  The converter of the ATtiny84A delivers 10-bit
      results, 0 to 1023; where a property is established by evaluating the
      setpoint map on every sample, it is stated for that range. *)

From Stdlib Require Import ZArith List Bool Lia.
From Stdlib Require Import Floats.SpecFloat.
Import ListNotations.
Open Scope Z_scope.

(* ================================================================== *)
(** ** Binary32 arithmetic *)

Definition float : Type := spec_float.

Module F32.

Definition prec : Z := 24.
Definition emax : Z := 128.

Definition add : float -> float -> float := SFadd prec emax.
Definition sub : float -> float -> float := SFsub prec emax.
Definition mul : float -> float -> float := SFmul prec emax.
Definition div : float -> float -> float := SFdiv prec emax.

(** The four C comparisons; each is false as soon as an operand is NaN. *)
Definition ltb (x y : float) : bool := SFltb x y.
Definition leb (x y : float) : bool := SFleb x y.
Definition gtb (x y : float) : bool := ltb y x.
Definition geb (x y : float) : bool := leb y x.
Definition eqb (x y : float) : bool := SFeqb x y.

(** Conversion of an integer, rounded to nearest-even. *)
Definition of_Z (n : Z) : float := binary_normalize prec emax n 0 false.

(** The decimal literal [n/d].  Both [n] and [d] are written with at most
    24 significant bits, so the correctly rounded quotient is the binary32
    value nearest to the literal. *)
Definition lit (n d : Z) : float := div (of_Z n) (of_Z d).

Definition zero : float := S754_zero false.

Definition is_nan (x : float) : bool :=
  match x with S754_nan => true | _ => false end.

Definition is_zero (x : float) : bool :=
  match x with S754_zero _ => true | _ => false end.

Definition is_finite (x : float) : bool :=
  match x with S754_zero _ | S754_finite _ _ _ => true | _ => false end.

End F32.

Declare Scope f32_scope.
Delimit Scope f32_scope with f32.
Infix "+" := F32.add : f32_scope.
Infix "-" := F32.sub : f32_scope.
Infix "*" := F32.mul : f32_scope.
Infix "/" := F32.div : f32_scope.
Infix "<?" := F32.ltb : f32_scope.
Infix "<=?" := F32.leb : f32_scope.
Infix ">?" := F32.gtb : f32_scope.
Infix ">=?" := F32.geb : f32_scope.

(* ================================================================== *)
(** ** Machine integers *)

(** [unsigned long] and [uint32_t] are 32 bits wide, [uint16_t] 16 bits. *)
Definition wrap32 (z : Z) : Z := z mod 2 ^ 32.
Definition wrap16 (z : Z) : Z := z mod 2 ^ 16.

(** Subtraction of two [unsigned long] values. *)
Definition usub (a b : Z) : Z := wrap32 (a - b).

(* ================================================================== *)
(** ** Pins, levels and the trace of primitive calls *)

(** The pin numbers behind [PIN_PB0], [A7], ... come from the board support
    package; the model keeps the names and only relies on them being
    distinct. *)
Inductive Pin : Type := PIN_PB0 | PIN_PB1 | PIN_PB2 | PIN_PA0 | A7 | A3.

Inductive Level : Type := LOW | HIGH.

Inductive Event : Type :=
| AnalogRead (pin : Pin) (value : Z)
| DigitalWrite (pin : Pin) (level : Level).

Definition level_of (b : bool) : Level := if b then HIGH else LOW.

(** ---------------- Digital Pin Assignments *)
Definition SSR_PIN : Pin := PIN_PB0.
Definition LED_ABOVE_PIN : Pin := PIN_PB1.
Definition LED_INBAND_PIN : Pin := PIN_PB2.
Definition LED_BELOW_PIN : Pin := PIN_PA0.

(** ---------------- Analog Pin Assignments *)
Definition TEMP_PIN : Pin := A7.
Definition POT_PIN : Pin := A3.

(** ---------------- LM19 Constants *)
Definition VREF : float := Eval vm_compute in F32.of_Z 5.
Definition LM19_V0C : float := Eval vm_compute in F32.lit 18663 10000.
Definition LM19_SLOPE : float := Eval vm_compute in F32.lit 1169 100000.

(** ---------------- Setpoint Range *)
Definition MIN_SET_F : float := Eval vm_compute in F32.of_Z 50.
Definition MAX_SET_F : float := Eval vm_compute in F32.of_Z 90.
Definition MID_SET_F : float := Eval vm_compute in F32.of_Z 72.

(** ---------------- Control Tuning *)
Definition HYST_F : float := Eval vm_compute in F32.of_Z 2.
Definition TEMP_ALPHA : float := Eval vm_compute in F32.lit 1 10.

(** ---------------- Task Intervals *)
Definition TEMP_SAMPLE_MS : Z := 250.
Definition CONTROL_UPDATE_MS : Z := 1000.
Definition LED_UPDATE_MS : Z := 200.

(* ================================================================== *)
(** ** The StatusLeds class *)

Module StatusLeds.

Inductive Region : Type :=
  Below | InBandBelow | AtSetPoint | InBandAbove | Above.

Definition region_eqb (a b : Region) : bool :=
  match a, b with
  | Below, Below | InBandBelow, InBandBelow | AtSetPoint, AtSetPoint
  | InBandAbove, InBandAbove | Above, Above => true
  | _, _ => false
  end.

Record t : Type := mk {
  _abovePin : Pin;
  _inBandPin : Pin;
  _belowPin : Pin;
  _hysteresisF : float;
  _updateIntervalMs : Z;
  _lastUpdate : Z;
  _region : Region;
  _lastRegion : Region
}.

Definition set_region (r : Region) (o : t) : t :=
  mk (_abovePin o) (_inBandPin o) (_belowPin o) (_hysteresisF o)
     (_updateIntervalMs o) (_lastUpdate o) r (_lastRegion o).

Definition set_lastRegion (r : Region) (o : t) : t :=
  mk (_abovePin o) (_inBandPin o) (_belowPin o) (_hysteresisF o)
     (_updateIntervalMs o) (_lastUpdate o) (_region o) r.

Definition set_lastUpdate (now : Z) (o : t) : t :=
  mk (_abovePin o) (_inBandPin o) (_belowPin o) (_hysteresisF o)
     (_updateIntervalMs o) now (_region o) (_lastRegion o).

(** Constructor, using initializer list. *)
Definition new (abovePin inBandPin belowPin : Pin) (hysteresisF : float)
           (updateIntervalMs : Z) : t :=
  mk abovePin inBandPin belowPin hysteresisF updateIntervalMs
     0 AtSetPoint AtSetPoint.

(** The region selected by the if-chain of [setDisplayState]. *)
Definition classify (hysteresisF tempF setPointF : float) : Region :=
  let halfBand := (hysteresisF * F32.lit 1 2)%f32 in
  if (tempF <? setPointF - halfBand)%f32 then Below
  else if (tempF >=? setPointF - halfBand)%f32 && (tempF <=? setPointF)%f32
  then InBandBelow
  else if (tempF <=? setPointF + halfBand)%f32 && (tempF >=? setPointF)%f32
  then InBandAbove
  else if (tempF >? setPointF + halfBand)%f32 then Above
  else AtSetPoint.

Definition setDisplayState (tempF setPointF : float) (o : t) : t :=
  set_region (classify (_hysteresisF o) tempF setPointF) o.

(** The three flags computed by the switch of [updateLEDs], in the order
    (aboveOn, inBandOn, belowOn). *)
Definition flags (r : Region) : bool * bool * bool :=
  let belowOn := false in
  let inBandOn := false in
  let aboveOn := false in
  match r with
  | Below => let belowOn := true in (aboveOn, inBandOn, belowOn)
  | InBandBelow =>
      let inBandOn := true in
      let belowOn := true in (aboveOn, inBandOn, belowOn)
  | AtSetPoint => let inBandOn := true in (aboveOn, inBandOn, belowOn)
  | InBandAbove =>
      let inBandOn := true in
      let aboveOn := true in (aboveOn, inBandOn, belowOn)
  | Above => let aboveOn := true in (aboveOn, inBandOn, belowOn)
  end.

(** [updateLEDs now o] returns the object after the call and the
    [digitalWrite] calls it made, in program order. *)
Definition updateLEDs (now : Z) (o : t) : t * list Event :=
  if usub now (_lastUpdate o) <? _updateIntervalMs o then (o, [])
  else
    let o := set_lastUpdate now o in
    if region_eqb (_region o) (_lastRegion o) then (o, [])
    else
      let o := set_lastRegion (_region o) o in
      let '(aboveOn, inBandOn, belowOn) := flags (_region o) in
      (o, [ DigitalWrite (_abovePin o) (level_of aboveOn);
            DigitalWrite (_inBandPin o) (level_of inBandOn);
            DigitalWrite (_belowPin o) (level_of belowOn) ]).

Definition region (o : t) : Region := _region o.

End StatusLeds.

(* ================================================================== *)
(** ** Global state of the sketch *)

Record State : Type := mkState {
  filteredTempF : float;
  heaterOn : bool;
  inDeadband : bool;
  setPointF : float;
  lastTempSampleMs : Z;
  lastControlMs : Z;
  statusLeds : StatusLeds.t;
  trace : list Event
}.

Definition set_filteredTempF (v : float) (st : State) : State :=
  mkState v (heaterOn st) (inDeadband st) (setPointF st)
          (lastTempSampleMs st) (lastControlMs st) (statusLeds st) (trace st).

Definition set_heaterOn (v : bool) (st : State) : State :=
  mkState (filteredTempF st) v (inDeadband st) (setPointF st)
          (lastTempSampleMs st) (lastControlMs st) (statusLeds st) (trace st).

Definition set_inDeadband (v : bool) (st : State) : State :=
  mkState (filteredTempF st) (heaterOn st) v (setPointF st)
          (lastTempSampleMs st) (lastControlMs st) (statusLeds st) (trace st).

Definition set_setPointF (v : float) (st : State) : State :=
  mkState (filteredTempF st) (heaterOn st) (inDeadband st) v
          (lastTempSampleMs st) (lastControlMs st) (statusLeds st) (trace st).

Definition set_lastTempSampleMs (v : Z) (st : State) : State :=
  mkState (filteredTempF st) (heaterOn st) (inDeadband st) (setPointF st)
          v (lastControlMs st) (statusLeds st) (trace st).

Definition set_lastControlMs (v : Z) (st : State) : State :=
  mkState (filteredTempF st) (heaterOn st) (inDeadband st) (setPointF st)
          (lastTempSampleMs st) v (statusLeds st) (trace st).

Definition set_statusLeds (v : StatusLeds.t) (st : State) : State :=
  mkState (filteredTempF st) (heaterOn st) (inDeadband st) (setPointF st)
          (lastTempSampleMs st) (lastControlMs st) v (trace st).

(** Append the events of a primitive call to the trace. *)
Definition emit (evs : list Event) (st : State) : State :=
  mkState (filteredTempF st) (heaterOn st) (inDeadband st) (setPointF st)
          (lastTempSampleMs st) (lastControlMs st) (statusLeds st)
          (trace st ++ evs).

(** The initializers of the global variables and of the [statusLeds]
    object. *)
Definition initial : State :=
  mkState (F32.of_Z 72) false false (F32.of_Z 72) 0 0
          (StatusLeds.new LED_ABOVE_PIN LED_INBAND_PIN LED_BELOW_PIN
                          HYST_F LED_UPDATE_MS)
          [].

(* ================================================================== *)
(** ** Sensor reader *)

Definition N_SAMPLES : nat := 8.

(** The summation loop of [readTemperatureC]: [k] iterations remain, [i] is
    the loop counter, [analogRead i] the value returned by the [i]-th
    conversion and [sum] the [uint32_t] accumulator. *)
Fixpoint sumSamples (analogRead : nat -> Z) (k i : nat) (sum : Z) : Z :=
  match k with
  | O => sum
  | S k' => sumSamples analogRead k' (S i) (wrap32 (sum + analogRead i))
  end.

(** [float raw = sum / (float)N_SAMPLES; float v = (raw * VREF) / 1023.0;] *)
Definition sensorVoltage (analogRead : nat -> Z) : float :=
  let sum := sumSamples analogRead N_SAMPLES 0%nat 0 in
  let raw := (F32.of_Z sum / F32.of_Z (Z.of_nat N_SAMPLES))%f32 in
  ((raw * VREF) / F32.of_Z 1023)%f32.

(** Clamp to sane LM19 range. *)
Definition clampVoltage (v : float) : float :=
  let v := if (v <? F32.lit 2 10)%f32 then F32.lit 2 10 else v in
  let v := if (v >? F32.lit 28 10)%f32 then F32.lit 28 10 else v in
  v.

(** [tC = (LM19_V0C - v) / LM19_SLOPE] *)
Definition lm19Transfer (v : float) : float :=
  ((LM19_V0C - v) / LM19_SLOPE)%f32.

Definition readTemperatureC (analogRead : nat -> Z) : float :=
  let v := sensorVoltage analogRead in
  let v := clampVoltage v in
  let tC := lm19Transfer v in
  tC.

(** Celsius to Fahrenheit. *)
Definition readTemperatureFOnce (analogRead : nat -> Z) : float :=
  let c := readTemperatureC analogRead in
  (c * F32.of_Z 9 / F32.of_Z 5 + F32.of_Z 32)%f32.

(** The [analogRead] calls made by one run of [readTemperatureC]. *)
Definition sensorReads (analogRead : nat -> Z) : list Event :=
  map (fun i => AnalogRead TEMP_PIN (analogRead i)) (seq 0 N_SAMPLES).

(* ================================================================== *)
(** ** Setpoint reader *)

(** The two interpolation branches of [readSetpointF], as functions of the
    range constants.  [midRaw] stands for the local constant [MID_RAW] and
    [fullRaw] for the literal [1023.0f]. *)
Section SetpointMap.

Variables minSet midSet maxSet : float.
Variables midRaw fullRaw : float.

(** [(spanRaw > 0.0f) ? (num / spanRaw) : 0.0f] *)
Definition fraction (num spanRaw : float) : float :=
  if (spanRaw >? F32.zero)%f32 then (num / spanRaw)%f32 else F32.zero.

(** Values [0 .. MID_RAW] map to range [MIN_SET_F .. MID_SET_F]. *)
Definition lowerSegment (raw : float) : float :=
  let spanRaw := (midRaw - F32.zero)%f32 in
  let spanTemp := (midSet - minSet)%f32 in
  let frac := fraction raw spanRaw in
  (minSet + spanTemp * frac)%f32.

(** Values [MID_RAW .. 1023] map to range [MID_SET_F .. MAX_SET_F]. *)
Definition upperSegment (raw : float) : float :=
  let spanRaw := (fullRaw - midRaw)%f32 in
  let spanTemp := (maxSet - midSet)%f32 in
  let frac := fraction (raw - midRaw)%f32 spanRaw in
  (midSet + spanTemp * frac)%f32.

(** The value returned by [readSetpointF] for the converted sample. *)
Definition setpointMap (raw : float) : float :=
  if (raw <=? midRaw)%f32 then lowerSegment raw else upperSegment raw.

(** The same computation with the division made explicit as a partial
    operation: [None] stands for a division whose divisor is zero. *)
Definition checkedDiv (num den : float) : option float :=
  if F32.is_zero den then None else Some (num / den)%f32.

Definition fractionChecked (num spanRaw : float) : option float :=
  if (spanRaw >? F32.zero)%f32 then checkedDiv num spanRaw
  else Some F32.zero.

Definition setpointMapChecked (raw : float) : option float :=
  if (raw <=? midRaw)%f32 then
    let spanRaw := (midRaw - F32.zero)%f32 in
    let spanTemp := (midSet - minSet)%f32 in
    match fractionChecked raw spanRaw with
    | Some frac => Some (minSet + spanTemp * frac)%f32
    | None => None
    end
  else
    let spanRaw := (fullRaw - midRaw)%f32 in
    let spanTemp := (maxSet - midSet)%f32 in
    match fractionChecked (raw - midRaw)%f32 spanRaw with
    | Some frac => Some (midSet + spanTemp * frac)%f32
    | None => None
    end.

End SetpointMap.

(** center of the 0-1023 value ADC pins return *)
Definition MID_RAW : float := Eval vm_compute in F32.lit 1023 2.
Definition FULL_RAW : float := Eval vm_compute in F32.of_Z 1023.

(** [readSetpointF pot st]: [pot] is the value returned by
    [analogRead(POT_PIN)].  The result is the returned setpoint and the
    state after the call; the global [setPointF] is assigned in the upper
    branch only. *)
Definition readSetpointF (pot : Z) (st : State) : float * State :=
  let rawADC := wrap16 pot in
  let st := emit [AnalogRead POT_PIN pot] st in
  let raw := F32.of_Z rawADC in
  if (raw <=? MID_RAW)%f32 then
    (lowerSegment MIN_SET_F MID_SET_F MID_RAW raw, st)
  else
    let st := set_setPointF (upperSegment MID_SET_F MAX_SET_F MID_RAW FULL_RAW raw) st in
    (setPointF st, st).

(** The setpoint returned for a dial sample. *)
Definition setpointOf (pot : Z) : float :=
  setpointMap MIN_SET_F MID_SET_F MAX_SET_F MID_RAW FULL_RAW
              (F32.of_Z (wrap16 pot)).

(* ================================================================== *)
(** ** Tasks and main loop *)

(** Sample temperature periodically and update [filteredTempF]. *)
Definition taskSampleTemperature (now : Z) (tempADC : nat -> Z) (st : State)
  : State :=
  if usub now (lastTempSampleMs st) <? TEMP_SAMPLE_MS then st
  else
    let st := set_lastTempSampleMs now st in
    let st := emit (sensorReads tempADC) st in
    let tempFraw := readTemperatureFOnce tempADC in
    set_filteredTempF
      (filteredTempF st * (F32.of_Z 1 - TEMP_ALPHA) + tempFraw * TEMP_ALPHA)%f32
      st.

(** The decision of the if-chain of [taskUpdateControl]: the new value of
    [wantOn] and of [inDeadband]. *)
Definition decide (heaterOn : bool) (tempF setF halfBand : float)
  : bool * bool :=
  let wantOn := heaterOn in
  let inDeadband := false in
  if (tempF <=? setF - halfBand)%f32 then (true, inDeadband)
  else if (tempF >=? setF + halfBand)%f32 then (false, inDeadband)
  else (wantOn, true).

(** Update heater control based on filtered temp + setpoint. *)
Definition taskUpdateControl (now : Z) (pot : Z) (st : State) : State :=
  if usub now (lastControlMs st) <? CONTROL_UPDATE_MS then st
  else
    let st := set_lastControlMs now st in
    let '(setF, st) := readSetpointF pot st in
    let tempF := filteredTempF st in
    let halfBand := (HYST_F * F32.lit 1 2)%f32 in
    let '(wantOn, dead) := decide (heaterOn st) tempF setF halfBand in
    let st := set_inDeadband dead st in
    let st := set_heaterOn wantOn st in
    emit [DigitalWrite SSR_PIN (level_of (heaterOn st))] st.

(** What the primitives deliver during one iteration of [loop]:
    [millis] is the time since start in milliseconds (not yet reduced to
    32 bits), [tempADC i] the [i]-th conversion of the sensor channel and
    [potADC] the conversion of the dial channel. *)
Record Inputs : Type := mkInputs {
  millis : Z;
  tempADC : nat -> Z;
  potADC : Z
}.

Definition loop (inp : Inputs) (st : State) : State :=
  let now := wrap32 (millis inp) in
  let st := taskSampleTemperature now (tempADC inp) st in
  let st := taskUpdateControl now (potADC inp) st in
  let st := set_statusLeds
              (StatusLeds.setDisplayState (filteredTempF st) (setPointF st)
                                          (statusLeds st)) st in
  let '(leds, evs) := StatusLeds.updateLEDs now (statusLeds st) in
  emit evs (set_statusLeds leds st).

(** The main loop over a sequence of iterations. *)
Fixpoint run (inps : list Inputs) (st : State) : State :=
  match inps with
  | [] => st
  | inp :: rest => run rest (loop inp st)
  end.

(* ================================================================== *)
(** ** Auxiliary definitions used by the proofs *)

(** A key whose lexicographic order is the order [SFcompare] decides on
    the values that are not NaN. *)
Definition rank (x : float) : Z * Z * Z :=
  match x with
  | S754_nan => (0, 0, 0)
  | S754_zero _ => (0, 0, 0)
  | S754_infinity true => (-2, 0, 0)
  | S754_infinity false => (2, 0, 0)
  | S754_finite true m e => (-1, - e, - Zpos m)
  | S754_finite false m e => (1, e, Zpos m)
  end.

Definition lexCompare (a b : Z * Z * Z) : comparison :=
  let '(a1, a2, a3) := a in
  let '(b1, b2, b3) := b in
  match a1 ?= b1 with
  | Eq => match a2 ?= b2 with Eq => a3 ?= b3 | c => c end
  | c => c
  end.

Definition lexLt (a b : Z * Z * Z) : Prop :=
  let '(a1, a2, a3) := a in
  let '(b1, b2, b3) := b in
  a1 < b1 \/ (a1 = b1 /\ (a2 < b2 \/ (a2 = b2 /\ a3 < b3))).

(** [allFrom k z P]: [P] holds on the [k] integers starting at [z]. *)
Fixpoint allFrom (k : nat) (z : Z) (P : Z -> bool) : bool :=
  match k with
  | O => true
  | S k' => P z && allFrom k' (z + 1) P
  end.

(** *** Observing a sequence of display updates *)

(** One display update of [loop] at time [T] (in milliseconds since start,
    not reduced): [setDisplayState] followed by [updateLEDs]. *)
Definition displayStep (T : Z) (tempF setPointF : float) (o : StatusLeds.t)
  : StatusLeds.t * list Event :=
  StatusLeds.updateLEDs (wrap32 T)
                        (StatusLeds.setDisplayState tempF setPointF o).

(** The indicator writes of a sequence of display updates: the time of each
    update that wrote the indicator lines and the region it wrote. *)
Fixpoint writeLog (calls : list (Z * float * float)) (o : StatusLeds.t)
  : list (Z * StatusLeds.Region) :=
  match calls with
  | [] => []
  | (T, tempF, setPointF) :: rest =>
      let '(o', evs) := displayStep T tempF setPointF o in
      match evs with
      | [] => writeLog rest o'
      | _ :: _ => (T, StatusLeds._region o') :: writeLog rest o'
      end
  end.

(** Times do not decrease along the list. *)
Fixpoint ascending (ts : list Z) : Prop :=
  match ts with
  | [] => True
  | t1 :: rest =>
      match rest with
      | [] => True
      | t2 :: _ => t1 <= t2 /\ ascending rest
      end
  end.

(** Consecutive entries of a log are at least [d] apart and carry different
    regions. *)
Fixpoint spaced (d : Z) (log : list (Z * StatusLeds.Region)) : Prop :=
  match log with
  | [] => True
  | (T1, r1) :: rest =>
      match rest with
      | [] => True
      | (T2, r2) :: _ => d <= T2 - T1 /\ r1 <> r2 /\ spaced d rest
      end
  end.

(** The time of a display call. *)
Definition callTime (c : Z * float * float) : Z := fst (fst c).

(** *** Observing the sampling task *)

Definition isTempRead (e : Event) : bool :=
  match e with
  | AnalogRead A7 _ => true
  | _ => false
  end.

(** Number of conversions of the sensor channel recorded in a trace. *)
Definition tempReads (tr : list Event) : nat := length (filter isTempRead tr).

(** The times ([millis]) of the iterations of [loop] in which the sensor was
    sampled, that is in which the body of [taskSampleTemperature] ran. *)
Fixpoint sampleTimes (inps : list Inputs) (st : State) : list Z :=
  match inps with
  | [] => []
  | inp :: rest =>
      let st' := loop inp st in
      if (tempReads (trace st) <? tempReads (trace st'))%nat
      then millis inp :: sampleTimes rest st'
      else sampleTimes rest st'
  end.

(** Consecutive times of a list are at least [d] apart. *)
Fixpoint apart (d : Z) (ts : list Z) : Prop :=
  match ts with
  | [] => True
  | t1 :: rest =>
      match rest with
      | [] => True
      | t2 :: _ => d <= t2 - t1 /\ apart d rest
      end
  end.

(** The half band of the heater controller. *)
Definition controlHalfBand : float :=
  Eval vm_compute in (HYST_F * F32.lit 1 2)%f32.

(** The state handed to the display by an iteration of [loop]: the state
    after the two tasks. *)
Definition afterControl (inp : Inputs) (st : State) : State :=
  taskUpdateControl (wrap32 (millis inp)) (potADC inp)
    (taskSampleTemperature (wrap32 (millis inp)) (tempADC inp) st).

(** The three outcomes of a call of [updateLEDs]. *)
Inductive Outcome (now : Z) (o : StatusLeds.t)
  : StatusLeds.t -> list Event -> Prop :=
| TooEarly :
    usub now (StatusLeds._lastUpdate o) < StatusLeds._updateIntervalMs o ->
    Outcome now o o []
| SameRegion :
    StatusLeds._updateIntervalMs o <= usub now (StatusLeds._lastUpdate o) ->
    StatusLeds._region o = StatusLeds._lastRegion o ->
    Outcome now o (StatusLeds.set_lastUpdate now o) []
| Written :
    StatusLeds._updateIntervalMs o <= usub now (StatusLeds._lastUpdate o) ->
    StatusLeds._region o <> StatusLeds._lastRegion o ->
    let f := StatusLeds.flags (StatusLeds._region o) in
    Outcome now o
      (StatusLeds.set_lastRegion (StatusLeds._region o)
                                 (StatusLeds.set_lastUpdate now o))
      [ DigitalWrite (StatusLeds._abovePin o) (level_of (fst (fst f)));
        DigitalWrite (StatusLeds._inBandPin o) (level_of (snd (fst f)));
        DigitalWrite (StatusLeds._belowPin o) (level_of (snd f)) ].

(** Simplification of the projections of an updated state. *)
Ltac state_simpl :=
  cbn [filteredTempF heaterOn inDeadband setPointF lastTempSampleMs
       lastControlMs statusLeds trace set_filteredTempF set_heaterOn
       set_inDeadband set_setPointF set_lastTempSampleMs set_lastControlMs
       set_statusLeds emit fst snd] in *.

(* ================================================================== *)
(** ** Start-up: [setup] and the start-up methods of StatusLeds *)

(** The primitive calls of the start-up code: besides the reads and writes
    of [Event], the pin configuration, the choice of the ADC reference and
    the blocking [delay]. *)
Inductive BootEvent : Type :=
| Prim (e : Event)
| PinModeOutput (pin : Pin)
| AnalogReferenceDefault
| Delay (ms : Z).

Module Boot.

(** [StatusLeds::begin] *)
Definition begin (o : StatusLeds.t) : list BootEvent :=
  [ PinModeOutput (StatusLeds._abovePin o);
    PinModeOutput (StatusLeds._inBandPin o);
    PinModeOutput (StatusLeds._belowPin o);
    Prim (DigitalWrite (StatusLeds._abovePin o) LOW);
    Prim (DigitalWrite (StatusLeds._inBandPin o) LOW);
    Prim (DigitalWrite (StatusLeds._belowPin o) LOW) ].

(** The loop [for (i = 0; i < 3; i++)] of [selfTest] over the array
    [pins]: each LED is switched on, held for 250 ms and switched off. *)
Fixpoint stepEach (pins : list Pin) : list BootEvent :=
  match pins with
  | [] => []
  | p :: rest =>
      Prim (DigitalWrite p HIGH) :: Delay 250 :: Prim (DigitalWrite p LOW)
      :: stepEach rest
  end.

(** [StatusLeds::selfTest] *)
Definition selfTest (o : StatusLeds.t) : list BootEvent :=
  let pins := [ StatusLeds._belowPin o; StatusLeds._inBandPin o;
                StatusLeds._abovePin o ] in
  stepEach pins
  ++ [ Prim (DigitalWrite (StatusLeds._abovePin o) HIGH);
       Prim (DigitalWrite (StatusLeds._inBandPin o) HIGH);
       Prim (DigitalWrite (StatusLeds._belowPin o) HIGH);
       Delay 250;
       Prim (DigitalWrite (StatusLeds._abovePin o) LOW);
       Prim (DigitalWrite (StatusLeds._inBandPin o) LOW);
       Prim (DigitalWrite (StatusLeds._belowPin o) LOW);
       Delay 250 ]
  ++ stepEach pins.

(** [StatusLeds::allOff] *)
Definition allOff (o : StatusLeds.t) : list BootEvent :=
  [ Prim (DigitalWrite (StatusLeds._abovePin o) LOW);
    Prim (DigitalWrite (StatusLeds._inBandPin o) LOW);
    Prim (DigitalWrite (StatusLeds._belowPin o) LOW) ].

(** [setup] of the sketch, run on the global [statusLeds] object. *)
Definition setup (st : State) : list BootEvent :=
  [ PinModeOutput SSR_PIN; Prim (DigitalWrite SSR_PIN LOW);
    AnalogReferenceDefault ]
  ++ begin (statusLeds st)
  ++ selfTest (statusLeds st).

End Boot.

(** The reads and writes among the calls of the start-up code. *)
Fixpoint primEvents (bs : list BootEvent) : list Event :=
  match bs with
  | [] => []
  | Prim e :: rest => e :: primEvents rest
  | _ :: rest => primEvents rest
  end.

(** The time spent in [delay]. *)
Fixpoint delayTotal (bs : list BootEvent) : Z :=
  match bs with
  | [] => 0
  | Delay ms :: rest => ms + delayTotal rest
  | _ :: rest => delayTotal rest
  end.

(** The state in which [loop] is entered for the first time: the
    initializers, with the writes of [setup] in the trace. *)
Definition booted : State := emit (primEvents (Boot.setup initial)) initial.

(* ================================================================== *)
(** ** Levels of the output lines *)

Definition pin_eqb (a b : Pin) : bool :=
  match a, b with
  | PIN_PB0, PIN_PB0 | PIN_PB1, PIN_PB1 | PIN_PB2, PIN_PB2
  | PIN_PA0, PIN_PA0 | A7, A7 | A3, A3 => true
  | _, _ => false
  end.

(** The effect of one call on the level of line [p]. *)
Definition drive (p : Pin) (l : option Level) (e : Event) : option Level :=
  match e with
  | DigitalWrite q v => if pin_eqb q p then Some v else l
  | AnalogRead _ _ => l
  end.

(** The level of line [p] after the calls of a trace: the level of the last
    write to [p], [None] when the trace has no write to it. *)
Definition levelAfter (tr : list Event) (p : Pin) : option Level :=
  fold_left (drive p) tr None.

(** The three indicator lines, in the order (above, inBand, below). *)
Definition ledLevels (st : State)
  : option Level * option Level * option Level :=
  let o := statusLeds st in
  (levelAfter (trace st) (StatusLeds._abovePin o),
   levelAfter (trace st) (StatusLeds._inBandPin o),
   levelAfter (trace st) (StatusLeds._belowPin o)).

(** The levels that display a region. *)
Definition shown (r : StatusLeds.Region)
  : option Level * option Level * option Level :=
  let '(aboveOn, inBandOn, belowOn) := StatusLeds.flags r in
  (Some (level_of aboveOn), Some (level_of inBandOn),
   Some (level_of belowOn)).

(** The four output lines of an object are pairwise different. *)
Definition distinctPins (o : StatusLeds.t) : bool :=
  negb (pin_eqb (StatusLeds._abovePin o) (StatusLeds._inBandPin o))
  && negb (pin_eqb (StatusLeds._abovePin o) (StatusLeds._belowPin o))
  && negb (pin_eqb (StatusLeds._inBandPin o) (StatusLeds._belowPin o))
  && negb (pin_eqb (StatusLeds._abovePin o) SSR_PIN)
  && negb (pin_eqb (StatusLeds._inBandPin o) SSR_PIN)
  && negb (pin_eqb (StatusLeds._belowPin o) SSR_PIN).

(** The lines agree with the state: the SSR line carries [heaterOn], and
    the indicator lines either display [_lastRegion] or are all still low
    with [_lastRegion] at its initial value. *)
Definition linesAgree (st : State) : Prop :=
  levelAfter (trace st) SSR_PIN = Some (level_of (heaterOn st))
  /\ (ledLevels st = shown (StatusLeds._lastRegion (statusLeds st))
      \/ (ledLevels st = (Some LOW, Some LOW, Some LOW)
          /\ StatusLeds._lastRegion (statusLeds st) = StatusLeds.AtSetPoint)).

(* ================================================================== *)
(** ** Observing the control task and the polling of the loop *)

Definition isSsrWrite (e : Event) : bool :=
  match e with
  | DigitalWrite p _ => pin_eqb p SSR_PIN
  | AnalogRead _ _ => false
  end.

(** Number of writes of the SSR line recorded in a trace. *)
Definition ssrWrites (tr : list Event) : nat := length (filter isSsrWrite tr).

(** The times ([millis]) of the iterations of [loop] in which the SSR line
    was written. *)
Fixpoint ssrWriteTimes (inps : list Inputs) (st : State) : list Z :=
  match inps with
  | [] => []
  | inp :: rest =>
      let st' := loop inp st in
      if (ssrWrites (trace st) <? ssrWrites (trace st'))%nat
      then millis inp :: ssrWriteTimes rest st'
      else ssrWriteTimes rest st'
  end.

(** [R] relates each element of a list to the next one. *)
Fixpoint chained (R : Z -> Z -> Prop) (ts : list Z) : Prop :=
  match ts with
  | [] => True
  | t1 :: rest =>
      match rest with
      | [] => True
      | t2 :: _ => R t1 t2 /\ chained R rest
      end
  end.

(* ================================================================== *)
(** ** The sensor reading as a function of the sum of the samples *)

(** The part of [readTemperatureFOnce] after the summation loop. *)
Definition fahrenheitOfSum (sum : Z) : float :=
  let raw := (F32.of_Z sum / F32.of_Z (Z.of_nat N_SAMPLES))%f32 in
  let v := ((raw * VREF) / F32.of_Z 1023)%f32 in
  let c := lm19Transfer (clampVoltage v) in
  (c * F32.of_Z 9 / F32.of_Z 5 + F32.of_Z 32)%f32.

(** [descendingFrom k z prev f]: the [k] values of [f] from [z] on do not
    increase, starting below [prev]. *)
Fixpoint descendingFrom (k : nat) (z : Z) (prev : float) (f : Z -> float)
  : bool :=
  match k with
  | O => true
  | S k' =>
      let cur := f z in
      (cur <=? prev)%f32 && descendingFrom k' (z + 1) cur f
  end.

(* ================================================================== *)
(** * Properties *)

(** ** The order on binary32 values *)

Section FloatOrder.

Lemma compare_rank (x y : float) :
  F32.is_nan x = false -> F32.is_nan y = false ->
  SFcompare x y = Some (lexCompare (rank x) (rank y)).
Proof.
  destruct x as [sx|sx| |sx mx ex], y as [sy|sy| |sy my ey]; simpl;
    intros Hx Hy; try discriminate;
    try destruct sx; try destruct sy; try reflexivity.
  unfold lexCompare. change (-1 ?= -1) with Eq. cbv beta iota.
  rewrite Z.compare_opp, (Z.compare_antisym ex ey).
  destruct (ex ?= ey); reflexivity.
Qed.

Lemma lexCompare_Lt (a b : Z * Z * Z) :
  lexCompare a b = Lt <-> lexLt a b.
Proof.
  destruct a as [[a1 a2] a3], b as [[b1 b2] b3]; simpl.
  destruct (Z.compare_spec a1 b1); [| |];
    [ destruct (Z.compare_spec a2 b2); [| |];
      [ destruct (Z.compare_spec a3 b3) | | ] | | ];
    split; intros H'; try discriminate; try reflexivity; try lia.
Qed.

Lemma lexCompare_Eq (a b : Z * Z * Z) :
  lexCompare a b = Eq <-> a = b.
Proof.
  destruct a as [[a1 a2] a3], b as [[b1 b2] b3]; simpl.
  destruct (Z.compare_spec a1 b1); [| |];
    [ destruct (Z.compare_spec a2 b2); [| |];
      [ destruct (Z.compare_spec a3 b3) | | ] | | ];
    split; intros H'; try discriminate; try reflexivity;
    try (injection H'; intros; lia); subst; reflexivity.
Qed.

Lemma lexLt_irrefl (a : Z * Z * Z) : ~ lexLt a a.
Proof. destruct a as [[a1 a2] a3]; simpl; lia. Qed.

Lemma lexLt_trans (a b c : Z * Z * Z) : lexLt a b -> lexLt b c -> lexLt a c.
Proof.
  destruct a as [[a1 a2] a3], b as [[b1 b2] b3], c as [[c1 c2] c3];
    simpl; lia.
Qed.

Lemma lexLt_total (a b : Z * Z * Z) : lexLt a b \/ a = b \/ lexLt b a.
Proof.
  destruct a as [[a1 a2] a3], b as [[b1 b2] b3]; simpl.
  destruct (Z.lt_total a1 b1) as [H|[H|H]]; [lia| |lia].
  destruct (Z.lt_total a2 b2) as [H2|[H2|H2]]; [lia| |lia].
  destruct (Z.lt_total a3 b3) as [H3|[H3|H3]]; [lia| |lia].
  subst; auto.
Qed.

Lemma ltb_true_iff (x y : float) :
  (x <? y)%f32 = true <->
  F32.is_nan x = false /\ F32.is_nan y = false /\ lexLt (rank x) (rank y).
Proof.
  unfold F32.ltb, SFltb.
  destruct (F32.is_nan x) eqn:Hx.
  { destruct x; try discriminate; simpl; split;
      [discriminate | intros (H & _); discriminate]. }
  destruct (F32.is_nan y) eqn:Hy.
  { destruct y; try discriminate; destruct x; simpl; split;
      try discriminate; intros (_ & H & _); discriminate. }
  rewrite (compare_rank x y Hx Hy), <- lexCompare_Lt.
  destruct (lexCompare (rank x) (rank y)); split; intros H;
    try discriminate; auto; destruct H as (_ & _ & H); discriminate.
Qed.

Lemma leb_true_iff (x y : float) :
  (x <=? y)%f32 = true <->
  F32.is_nan x = false /\ F32.is_nan y = false /\
  (lexLt (rank x) (rank y) \/ rank x = rank y).
Proof.
  unfold F32.leb, SFleb.
  destruct (F32.is_nan x) eqn:Hx.
  { destruct x; try discriminate; simpl; split;
      [discriminate | intros (H & _); discriminate]. }
  destruct (F32.is_nan y) eqn:Hy.
  { destruct y; try discriminate; destruct x; simpl; split;
      try discriminate; intros (_ & H & _); discriminate. }
  rewrite (compare_rank x y Hx Hy), <- lexCompare_Lt, <- lexCompare_Eq.
  destruct (lexCompare (rank x) (rank y)); split; intros H;
    try discriminate; auto;
    destruct H as (_ & _ & [H|H]); discriminate.
Qed.

Lemma eqb_true_iff (x y : float) :
  F32.eqb x y = true <->
  F32.is_nan x = false /\ F32.is_nan y = false /\ rank x = rank y.
Proof.
  unfold F32.eqb, SFeqb.
  destruct (F32.is_nan x) eqn:Hx.
  { destruct x; try discriminate; simpl; split;
      [discriminate | intros (H & _); discriminate]. }
  destruct (F32.is_nan y) eqn:Hy.
  { destruct y; try discriminate; destruct x; simpl; split;
      try discriminate; intros (_ & H & _); discriminate. }
  rewrite (compare_rank x y Hx Hy), <- lexCompare_Eq.
  destruct (lexCompare (rank x) (rank y)); split; intros H;
    try discriminate; auto; destruct H as (_ & _ & H); discriminate.
Qed.

(** [x < y] excludes [y <= x]. *)
Lemma ltb_not_geb (x y : float) :
  (x <? y)%f32 = true -> (y <=? x)%f32 = false.
Proof.
  intros H. apply ltb_true_iff in H. destruct H as (_ & _ & H).
  apply not_true_iff_false. intros H'. apply leb_true_iff in H'.
  destruct H' as (_ & _ & [H'|H']).
  - exact (lexLt_irrefl _ (lexLt_trans _ _ _ H H')).
  - rewrite H' in H. exact (lexLt_irrefl _ H).
Qed.

(** [x <= y] excludes [y < x]. *)
Lemma leb_not_gtb (x y : float) :
  (x <=? y)%f32 = true -> (y <? x)%f32 = false.
Proof.
  intros H. destruct ((y <? x)%f32) eqn:E; [|reflexivity].
  apply ltb_not_geb in E. congruence.
Qed.

(** On values that are not NaN the order is total. *)
Lemma ltb_false_geb (x y : float) :
  F32.is_nan x = false -> F32.is_nan y = false ->
  (x <? y)%f32 = false -> (y <=? x)%f32 = true.
Proof.
  intros Hx Hy H. apply leb_true_iff. repeat split; auto.
  destruct (lexLt_total (rank x) (rank y)) as [L|[L|L]]; auto.
  exfalso. apply not_true_iff_false in H. apply H.
  apply ltb_true_iff. auto.
Qed.

Lemma leb_false_gtb (x y : float) :
  F32.is_nan x = false -> F32.is_nan y = false ->
  (x <=? y)%f32 = false -> (y <? x)%f32 = true.
Proof.
  intros Hx Hy H. destruct ((y <? x)%f32) eqn:E; [reflexivity|].
  apply ltb_false_geb in E; auto. congruence.
Qed.

Lemma leb_ltb_trans (x y z : float) :
  (x <=? y)%f32 = true -> (y <? z)%f32 = true -> (x <? z)%f32 = true.
Proof.
  intros H1 H2. apply leb_true_iff in H1. apply ltb_true_iff in H2.
  destruct H1 as (Hx & _ & H1), H2 as (_ & Hz & H2).
  apply ltb_true_iff. repeat split; auto.
  destruct H1 as [H1|H1]; [eapply lexLt_trans; eauto | rewrite H1; auto].
Qed.

Lemma ltb_leb (x y : float) : (x <? y)%f32 = true -> (x <=? y)%f32 = true.
Proof.
  intros H. apply ltb_true_iff in H. apply leb_true_iff. tauto.
Qed.

Lemma leb_trans (x y z : float) :
  (x <=? y)%f32 = true -> (y <=? z)%f32 = true -> (x <=? z)%f32 = true.
Proof.
  intros H1 H2. apply leb_true_iff in H1. apply leb_true_iff in H2.
  destruct H1 as (Hx & _ & H1), H2 as (_ & Hz & H2).
  apply leb_true_iff. repeat split; auto.
  destruct H1 as [H1|H1], H2 as [H2|H2].
  - left. eapply lexLt_trans; eauto.
  - left. rewrite <- H2. auto.
  - left. rewrite H1. auto.
  - right. congruence.
Qed.

Lemma leb_refl (x : float) : F32.is_nan x = false -> (x <=? x)%f32 = true.
Proof. intros H. apply leb_true_iff. auto. Qed.

Lemma eqb_leb (x y : float) :
  F32.eqb x y = true -> (x <=? y)%f32 = true /\ (y <=? x)%f32 = true.
Proof.
  intros H. apply eqb_true_iff in H. destruct H as (Hx & Hy & H).
  split; apply leb_true_iff; auto.
Qed.

End FloatOrder.

(** ** Operations on finite values never produce NaN *)

Section NoNaN.

Lemma shr_1_nonneg (mrs : shr_record) :
  0 <= shr_m mrs -> 0 <= shr_m (shr_1 mrs).
Proof.
  destruct mrs as [m r s]; simpl.
  destruct m as [|p|p]; [| destruct p | ]; simpl; lia.
Qed.

Lemma iter_shr_1_nonneg (p : positive) :
  forall mrs, 0 <= shr_m mrs -> 0 <= shr_m (iter_pos shr_1 p mrs).
Proof.
  induction p as [p IH|p IH|]; intros mrs H; simpl.
  - apply IH, IH, shr_1_nonneg, H.
  - apply IH, IH, H.
  - apply shr_1_nonneg, H.
Qed.

Lemma shr_fexp_nonneg (m e : Z) (l : location) :
  0 <= m -> 0 <= shr_m (fst (shr_fexp F32.prec F32.emax m e l)).
Proof.
  intros H. unfold shr_fexp, shr.
  assert (H0 : 0 <= shr_m (shr_record_of_loc m l))
    by (destruct l as [|[]]; exact H).
  destruct (fexp F32.prec F32.emax (Zdigits2 m + e) - e); simpl; auto.
  apply iter_shr_1_nonneg, H0.
Qed.

Lemma round_nearest_even_nonneg (m : Z) (l : location) :
  0 <= m -> 0 <= round_nearest_even m l.
Proof.
  intros H. destruct l as [|[]]; simpl; try lia.
  destruct (Z.even m); lia.
Qed.

Lemma binary_round_aux_not_nan (sx : bool) (mx ex : Z) (lx : location) :
  0 <= mx ->
  F32.is_nan (binary_round_aux F32.prec F32.emax sx mx ex lx) = false.
Proof.
  intros H. unfold binary_round_aux.
  pose proof (shr_fexp_nonneg mx ex lx H) as H1.
  destruct (shr_fexp F32.prec F32.emax mx ex lx) as [mrs' e'].
  simpl in H1.
  pose proof (shr_fexp_nonneg _ e' loc_Exact
                (round_nearest_even_nonneg _ (loc_of_shr_record mrs') H1))
    as H2.
  destruct (shr_fexp F32.prec F32.emax
              (round_nearest_even (shr_m mrs') (loc_of_shr_record mrs')) e'
              loc_Exact) as [mrs'' e''].
  simpl in H2.
  destruct (shr_m mrs'') as [|p|p]; [reflexivity | | lia].
  destruct (e'' <=? F32.emax - F32.prec); reflexivity.
Qed.

Lemma binary_normalize_not_nan (m e : Z) (s : bool) :
  F32.is_nan (binary_normalize F32.prec F32.emax m e s) = false.
Proof.
  destruct m as [|p|p]; simpl; [reflexivity | |];
    unfold binary_round;
    match goal with
    | |- context [shl_align ?a ?b ?c] => destruct (shl_align a b c)
    end; apply binary_round_aux_not_nan; lia.
Qed.

Lemma sub_not_nan (x y : float) :
  F32.is_finite x = true -> F32.is_nan y = false ->
  F32.is_nan (x - y)%f32 = false.
Proof.
  unfold F32.sub.
  destruct x as [sx|sx| |sx mx ex], y as [sy|sy| |sy my ey];
    intros Hx Hy; try discriminate; try reflexivity.
  - destruct sx, sy; reflexivity.
  - apply binary_normalize_not_nan.
Qed.

Lemma sub_finite_not_nan (x y : float) :
  F32.is_nan x = false -> F32.is_finite y = true ->
  F32.is_nan (x - y)%f32 = false.
Proof.
  unfold F32.sub.
  destruct x as [sx|sx| |sx mx ex], y as [sy|sy| |sy my ey];
    intros Hx Hy; try discriminate; try reflexivity.
  - destruct sx, sy; reflexivity.
  - apply binary_normalize_not_nan.
Qed.

Lemma add_finite_not_nan (x y : float) :
  F32.is_nan x = false -> F32.is_finite y = true ->
  F32.is_nan (x + y)%f32 = false.
Proof.
  unfold F32.add.
  destruct x as [sx|sx| |sx mx ex], y as [sy|sy| |sy my ey];
    intros Hx Hy; try discriminate; try reflexivity.
  - destruct sx, sy; reflexivity.
  - apply binary_normalize_not_nan.
Qed.

Lemma mul_finite_not_nan (x : float) (s : bool) (m : positive) (e : Z) :
  F32.is_nan x = false -> F32.is_nan (x * S754_finite s m e)%f32 = false.
Proof.
  unfold F32.mul. destruct x as [sx|sx| |sx mx ex]; intros Hx;
    try discriminate; try reflexivity.
  apply binary_round_aux_not_nan. lia.
Qed.

Lemma div_finite_not_nan (x : float) (s : bool) (m : positive) (e : Z) :
  F32.is_nan x = false -> F32.is_nan (x / S754_finite s m e)%f32 = false.
Proof.
  unfold F32.div. destruct x as [sx|sx| |sx mx ex]; intros Hx;
    try discriminate; try reflexivity.
  cbn [SFdiv]. unfold SFdiv_core_binary.
  set (sh := ex - e -
             Z.min (fexp F32.prec F32.emax
                      (Zdigits2 (Z.pos mx) + ex - (Zdigits2 (Z.pos m) + e)))
                   (ex - e)).
  set (m' := match sh with
             | 0 => Z.pos mx
             | Z.pos _ => Z.shiftl (Z.pos mx) sh
             | Z.neg _ => 0
             end).
  assert (Hm' : 0 <= m').
  { subst m'. destruct sh; try lia. apply Z.shiftl_nonneg. lia. }
  pose proof (Z_div_mod m' (Z.pos m) ltac:(lia)) as Hdiv.
  destruct (Z.div_eucl m' (Z.pos m)) as [q r].
  apply binary_round_aux_not_nan. nia.
Qed.

Lemma mul_not_nan (x y : float) :
  F32.is_nan x = false -> F32.is_finite y = true -> F32.is_zero y = false ->
  F32.is_nan (x * y)%f32 = false.
Proof.
  destruct y as [sy|sy| |sy my ey]; intros Hx Hf Hz; try discriminate.
  apply mul_finite_not_nan, Hx.
Qed.

Lemma div_not_nan (x y : float) :
  F32.is_nan x = false -> F32.is_finite y = true -> F32.is_zero y = false ->
  F32.is_nan (x / y)%f32 = false.
Proof.
  destruct y as [sy|sy| |sy my ey]; intros Hx Hf Hz; try discriminate.
  apply div_finite_not_nan, Hx.
Qed.

End NoNaN.

(* ================================================================== *)
(** ** Status display: indicator writes *)

Section IndicatorWrites.

Import StatusLeds.

Lemma region_eqb_eq (a b : Region) : region_eqb a b = true <-> a = b.
Proof. destruct a, b; simpl; split; intros H; congruence. Qed.

Lemma region_eqb_neq (a b : Region) : region_eqb a b = false <-> a <> b.
Proof. destruct a, b; simpl; split; intros H; congruence. Qed.

Lemma updateLEDs_outcome (now : Z) (o : t) :
  Outcome now o (fst (updateLEDs now o)) (snd (updateLEDs now o)).
Proof.
  unfold updateLEDs.
  destruct (Z.ltb_spec (usub now (_lastUpdate o)) (_updateIntervalMs o))
    as [Hlt|Hge]; [apply TooEarly, Hlt|].
  cbn [_region _lastRegion _abovePin _inBandPin _belowPin
       set_lastUpdate set_lastRegion].
  destruct (region_eqb (_region o) (_lastRegion o)) eqn:E.
  - apply region_eqb_eq in E. apply SameRegion; assumption.
  - apply region_eqb_neq in E.
    pose proof (Written now o Hge E) as W.
    destruct (flags (_region o)) as [[a i] b].
    exact W.
Qed.

(** An indicator write happens exactly when the interval has elapsed and
    the region differs from the one written last. *)
Lemma updateLEDs_writes_iff (now : Z) (o : t) :
  snd (updateLEDs now o) <> [] <->
  _updateIntervalMs o <= usub now (_lastUpdate o)
  /\ _region o <> _lastRegion o.
Proof.
  destruct (updateLEDs_outcome now o) as [Hlt|Hge Heq|Hge Hne];
    split; try (intros [H1 H2]); try intros H; try congruence;
    try lia; try (split; assumption); discriminate.
Qed.

Lemma usub_wrap32 (a b : Z) : usub (wrap32 a) (wrap32 b) = wrap32 (a - b).
Proof. unfold usub, wrap32. symmetry. apply Zminus_mod. Qed.

(** A wrapped difference never exceeds the true elapsed time. *)
Lemma wrap32_le (d : Z) : 0 <= d -> wrap32 d <= d.
Proof. intros H. unfold wrap32. apply Z.mod_le; lia. Qed.

Lemma ascending_tail (t1 : Z) (ts : list Z) :
  ascending (t1 :: ts) -> ascending ts.
Proof. destruct ts as [|t2 ts]; simpl; tauto. Qed.

Lemma ascending_head (t1 t2 : Z) (ts : list Z) :
  ascending (t1 :: t2 :: ts) -> t1 <= t2.
Proof. simpl; tauto. Qed.

Lemma ascending_lower (g t1 : Z) (ts : list Z) :
  g <= t1 -> ascending (t1 :: ts) -> ascending (g :: ts).
Proof.
  destruct ts as [|t2 ts]; simpl; [tauto|]. intros H [H1 H2]. split; [lia|].
  exact H2.
Qed.

(** After a write at [Tw] of region [rw], with the gate last passed at
    [Tg], the log of the remaining calls continues a spaced log. *)
Lemma spaced_after (calls : list (Z * float * float)) :
  forall (o : t) (Tw Tg : Z) (rw : Region),
    _lastRegion o = rw ->
    _lastUpdate o = wrap32 Tg ->
    Tw <= Tg ->
    ascending (Tg :: map callTime calls) ->
    spaced (_updateIntervalMs o) ((Tw, rw) :: writeLog calls o).
Proof.
  induction calls as [|[[T tempF] sp] rest IH]; intros o Tw Tg rw Hr Hu Hle Hasc.
  - simpl. exact I.
  - cbn [map callTime fst] in Hasc.
    pose proof (ascending_head _ _ _ Hasc) as HT.
    apply ascending_tail in Hasc.
    cbn [writeLog]. unfold displayStep.
    set (o1 := setDisplayState tempF sp o).
    assert (Hr1 : _lastRegion o1 = rw) by exact Hr.
    assert (Hu1 : _lastUpdate o1 = wrap32 Tg) by exact Hu.
    assert (Hi1 : _updateIntervalMs o1 = _updateIntervalMs o) by reflexivity.
    rewrite <- Hi1.
    pose proof (updateLEDs_outcome (wrap32 T) o1) as Hout.
    destruct (updateLEDs (wrap32 T) o1) as [o' evs]. cbn [fst snd] in Hout.
    inversion Hout as [Hlt Ho He|Hge Heq Ho He|Hge Hne Ho He]; subst o' evs.
    + apply (IH o1 Tw Tg rw); auto.
      apply (ascending_lower Tg T); auto.
    + change (_updateIntervalMs o1)
        with (_updateIntervalMs (set_lastUpdate (wrap32 T) o1)).
      apply (IH _ Tw T rw); auto. lia.
    + rewrite Hu1, usub_wrap32 in Hge.
      pose proof (wrap32_le (T - Tg) ltac:(lia)) as Hw.
      cbn [spaced]. split; [lia|].
      split; [intros Hc; apply Hne; rewrite Hr1; symmetry; exact Hc|].
      change (_updateIntervalMs o1)
        with (_updateIntervalMs
                (set_lastRegion (_region o1) (set_lastUpdate (wrap32 T) o1))).
      apply (IH _ T T); auto. lia.
Qed.

(** Along calls made at non-decreasing times, two consecutive indicator
    writes are at least one update interval apart and write different
    regions. *)
Lemma writeLog_spaced (calls : list (Z * float * float)) :
  forall o : t,
    ascending (map callTime calls) ->
    spaced (_updateIntervalMs o) (writeLog calls o).
Proof.
  induction calls as [|[[T tempF] sp] rest IH]; intros o Hasc.
  - exact I.
  - cbn [map callTime fst] in Hasc.
    cbn [writeLog]. unfold displayStep.
    set (o1 := setDisplayState tempF sp o).
    assert (Hi1 : _updateIntervalMs o1 = _updateIntervalMs o) by reflexivity.
    rewrite <- Hi1.
    pose proof (updateLEDs_outcome (wrap32 T) o1) as Hout.
    destruct (updateLEDs (wrap32 T) o1) as [o' evs]. cbn [fst snd] in Hout.
    inversion Hout as [Hlt Ho He|Hge Heq Ho He|Hge Hne Ho He]; subst o' evs.
    + apply IH. eapply ascending_tail; eauto.
    + change (_updateIntervalMs o1)
        with (_updateIntervalMs (set_lastUpdate (wrap32 T) o1)).
      apply IH. eapply ascending_tail; eauto.
    + change (_updateIntervalMs o1)
        with (_updateIntervalMs
                (set_lastRegion (_region o1) (set_lastUpdate (wrap32 T) o1))).
      apply (spaced_after rest _ T T); auto. lia.
Qed.

End IndicatorWrites.

(** C3. [updateLEDs] rewrites the indicator lines only when the update
    interval has elapsed and the region differs from the region written
    last: a call writes exactly if the interval has elapsed since the gate
    was last passed and the region differs from [_lastRegion], and along
    calls at non-decreasing times two consecutive indicator writes are at
    least [_updateIntervalMs] milliseconds apart and write different
    regions.  On a freshly constructed object with an interval of 200 ms,
    the regions Below, Below, InBandBelow presented at t = 0, 50, 250 give
    exactly one indicator write, at t = 250. *)
Theorem updateLEDs_debounce
  (o : StatusLeds.t) (calls : list (Z * float * float)) :
  ascending (map callTime calls) ->
  (forall now : Z,
      snd (StatusLeds.updateLEDs now o) <> [] <->
      StatusLeds._updateIntervalMs o <= usub now (StatusLeds._lastUpdate o)
      /\ StatusLeds._region o <> StatusLeds._lastRegion o)
  /\ spaced (StatusLeds._updateIntervalMs o) (writeLog calls o)
  /\ (forall (a i b : Pin) (h t1 s1 t2 s2 t3 s3 : float),
        StatusLeds.classify h t1 s1 = StatusLeds.Below ->
        StatusLeds.classify h t2 s2 = StatusLeds.Below ->
        StatusLeds.classify h t3 s3 = StatusLeds.InBandBelow ->
        writeLog [(0, t1, s1); (50, t2, s2); (250, t3, s3)]
                 (StatusLeds.new a i b h 200)
        = [(250, StatusLeds.InBandBelow)]).
Proof.
  intros Hasc. split; [| split].
  - intros now. apply updateLEDs_writes_iff.
  - apply writeLog_spaced, Hasc.
  - intros a i b h t1 s1 t2 s2 t3 s3 H1 H2 H3.
    cbv -[StatusLeds.classify]. rewrite H3. reflexivity.
Qed.

Lemma updateLEDs_debounce_witness :
  spaced (StatusLeds._updateIntervalMs (statusLeds initial))
    (writeLog [(0, F32.of_Z 60, F32.of_Z 72); (50, F32.of_Z 60, F32.of_Z 72);
               (250, F32.lit 143 2, F32.of_Z 72);
               (300, F32.of_Z 80, F32.of_Z 72);
               (460, F32.of_Z 80, F32.of_Z 72)]
              (statusLeds initial)).
Proof.
  refine (proj1 (proj2 (updateLEDs_debounce (statusLeds initial)
             [(0, F32.of_Z 60, F32.of_Z 72); (50, F32.of_Z 60, F32.of_Z 72);
              (250, F32.lit 143 2, F32.of_Z 72);
              (300, F32.of_Z 80, F32.of_Z 72);
              (460, F32.of_Z 80, F32.of_Z 72)] _))).
  cbv [map callTime fst ascending]. lia.
Defined.

(** C7. When [updateLEDs] performs an indicator write, the three lines
    (above, inBand, below) receive the combination of the region: Below
    (0,0,1), InBandBelow (0,1,1), AtSetPoint (0,1,0), InBandAbove (1,1,0),
    Above (1,0,0). *)
Theorem updateLEDs_pattern (now : Z) (o : StatusLeds.t) :
  snd (StatusLeds.updateLEDs now o) <> [] ->
  let above := DigitalWrite (StatusLeds._abovePin o) in
  let inBand := DigitalWrite (StatusLeds._inBandPin o) in
  let below := DigitalWrite (StatusLeds._belowPin o) in
  snd (StatusLeds.updateLEDs now o)
  = match StatusLeds._region o with
    | StatusLeds.Below => [above LOW; inBand LOW; below HIGH]
    | StatusLeds.InBandBelow => [above LOW; inBand HIGH; below HIGH]
    | StatusLeds.AtSetPoint => [above LOW; inBand HIGH; below LOW]
    | StatusLeds.InBandAbove => [above HIGH; inBand HIGH; below LOW]
    | StatusLeds.Above => [above HIGH; inBand LOW; below LOW]
    end.
Proof.
  intros H above inBand below. subst above inBand below.
  destruct (updateLEDs_outcome now o) as [Hlt|Hge Heq|Hge Hne];
    try (exfalso; apply H; reflexivity).
  destruct (StatusLeds._region o); reflexivity.
Qed.

Lemma updateLEDs_pattern_witness :
  let o := StatusLeds.set_region StatusLeds.InBandBelow (statusLeds initial) in
  snd (StatusLeds.updateLEDs 250 o)
  = [DigitalWrite (StatusLeds._abovePin o) LOW;
     DigitalWrite (StatusLeds._inBandPin o) HIGH;
     DigitalWrite (StatusLeds._belowPin o) HIGH].
Proof.
  refine (updateLEDs_pattern 250
            (StatusLeds.set_region StatusLeds.InBandBelow (statusLeds initial))
            _).
  vm_compute. discriminate.
Defined.

(* ================================================================== *)
(** ** Setpoint reader *)

Section SetpointReader.

Lemma allFrom_spec (P : Z -> bool) (k : nat) :
  forall z, allFrom k z P = true ->
            forall i, z <= i < z + Z.of_nat k -> P i = true.
Proof.
  induction k as [|k IH]; intros z H i Hi; [lia|].
  cbn [allFrom] in H. apply andb_true_iff in H. destruct H as [Hz Hrest].
  destruct (Z.eq_dec i z) as [->|Hne]; [exact Hz|].
  apply (IH (z + 1) Hrest). lia.
Qed.

(** A property checked on the 1024 results of a 10-bit conversion holds of
    the setpoint of every dial sample. *)
Lemma setpointOf_all (P : float -> bool) :
  allFrom 1024 0 (fun z => P (setpointOf z)) = true ->
  forall pot, 0 <= pot <= 1023 -> P (setpointOf pot) = true.
Proof.
  intros H pot Hpot.
  apply (allFrom_spec (fun z => P (setpointOf z)) _ 0 H). lia.
Qed.

Lemma readSetpointF_value (pot : Z) (st : State) :
  fst (readSetpointF pot st) = setpointOf pot.
Proof.
  unfold readSetpointF, setpointOf, setpointMap.
  destruct (F32.of_Z (wrap16 pot) <=? MID_RAW)%f32; reflexivity.
Qed.

Lemma readSetpointF_trace (pot : Z) (st : State) :
  trace (snd (readSetpointF pot st)) = trace st ++ [AnalogRead POT_PIN pot].
Proof.
  unfold readSetpointF.
  destruct (F32.of_Z (wrap16 pot) <=? MID_RAW)%f32; reflexivity.
Qed.

(** [readSetpointF] touches the trace and, in its upper branch, the
    global [setPointF]; nothing else. *)
Lemma readSetpointF_frame (pot : Z) (st : State) :
  let st' := snd (readSetpointF pot st) in
  filteredTempF st' = filteredTempF st
  /\ heaterOn st' = heaterOn st
  /\ inDeadband st' = inDeadband st
  /\ lastTempSampleMs st' = lastTempSampleMs st
  /\ lastControlMs st' = lastControlMs st
  /\ statusLeds st' = statusLeds st.
Proof.
  unfold readSetpointF.
  destruct (F32.of_Z (wrap16 pot) <=? MID_RAW)%f32; repeat split.
Qed.

Lemma readSetpointF_lower (pot : Z) (st : State) :
  (F32.of_Z (wrap16 pot) <=? MID_RAW)%f32 = true ->
  setPointF (snd (readSetpointF pot st)) = setPointF st.
Proof. intros H. unfold readSetpointF. rewrite H. reflexivity. Qed.

Lemma readSetpointF_upper (pot : Z) (st : State) :
  (F32.of_Z (wrap16 pot) <=? MID_RAW)%f32 = false ->
  setPointF (snd (readSetpointF pot st)) = setpointOf pot.
Proof.
  intros H. unfold readSetpointF, setpointOf, setpointMap. rewrite H.
  reflexivity.
Qed.

(** For every dial sample the lower threshold of the controller lies
    strictly below the upper one. *)
Lemma band_ordered (pot : Z) :
  0 <= pot <= 1023 ->
  (setpointOf pot - controlHalfBand <? setpointOf pot + controlHalfBand)%f32
  = true.
Proof.
  apply (setpointOf_all
           (fun s => (s - controlHalfBand <? s + controlHalfBand)%f32)).
  vm_cast_no_check (eq_refl true).
Qed.

(** With the band of the sketch the lower threshold of the display does not
    exceed the setpoint, for every dial sample. *)
Lemma dial_lower_threshold (pot : Z) :
  0 <= pot <= 1023 ->
  (setpointOf pot - StatusLeds._hysteresisF (statusLeds initial) * F32.lit 1 2
   <=? setpointOf pot)%f32 = true.
Proof.
  replace (StatusLeds._hysteresisF (statusLeds initial) * F32.lit 1 2)%f32
    with controlHalfBand by (vm_compute; reflexivity).
  apply (setpointOf_all (fun s => (s - controlHalfBand <=? s)%f32)).
  vm_cast_no_check (eq_refl true).
Qed.

Lemma segment_table (z : Z) :
  0 <= z < 1024 -> (F32.of_Z z <=? MID_RAW)%f32 = (z <=? 511).
Proof.
  intros Hz. apply eqb_prop.
  apply (allFrom_spec
           (fun z => Bool.eqb (F32.of_Z z <=? MID_RAW)%f32 (z <=? 511))
           1024%nat 0); [vm_cast_no_check (eq_refl true) | lia].
Qed.

(** Each sample maps to a number, and to a setpoint that is not above the
    setpoint of the next sample of the same segment. *)
Lemma step_table (z : Z) :
  0 <= z < 1024 ->
  F32.is_nan (setpointOf z) = false
  /\ (z <> 511 -> z <> 1023 ->
      (setpointOf z <=? setpointOf (z + 1))%f32 = true).
Proof.
  intros Hz.
  assert (H : (let s := setpointOf z in
               negb (F32.is_nan s)
               && ((z =? 511) || (z =? 1023)
                   || (s <=? setpointOf (z + 1))%f32)) = true).
  { apply (allFrom_spec
             (fun z => let s := setpointOf z in
                       negb (F32.is_nan s)
                       && ((z =? 511) || (z =? 1023)
                           || (s <=? setpointOf (z + 1))%f32))
             1024%nat 0); [vm_cast_no_check (eq_refl true) | lia]. }
  cbv zeta in H. apply andb_true_iff in H. destruct H as [H1 H2].
  split; [apply negb_true_iff, H1|].
  intros N1 N2. apply orb_true_iff in H2. destruct H2 as [H2|H2]; [|exact H2].
  apply orb_true_iff in H2. destruct H2 as [H2|H2];
    apply Z.eqb_eq in H2; contradiction.
Qed.

Lemma leb_chain (f : Z -> float) (n : nat) :
  forall a,
    F32.is_nan (f a) = false ->
    (forall i, a <= i < a + Z.of_nat n -> (f i <=? f (i + 1)%Z)%f32 = true) ->
    (f a <=? f (a + Z.of_nat n)%Z)%f32 = true.
Proof.
  induction n as [|n IH]; intros a Ha Hstep.
  - rewrite Z.add_0_r. apply leb_refl, Ha.
  - apply (leb_trans _ (f (a + Z.of_nat n))).
    + apply IH; auto. intros i Hi. apply Hstep. lia.
    + replace (a + Z.of_nat (S n)) with (a + Z.of_nat n + 1) by lia.
      apply Hstep. lia.
Qed.

(** Within a segment the setpoint does not decrease with the sample. *)
Lemma setpointOf_monotone (a b : Z) :
  0 <= a -> a <= b -> b <= 1023 ->
  (F32.of_Z a <=? MID_RAW)%f32 = (F32.of_Z b <=? MID_RAW)%f32 ->
  (setpointOf a <=? setpointOf b)%f32 = true.
Proof.
  intros Ha Hab Hb Hseg.
  rewrite !segment_table in Hseg by lia.
  replace b with (a + Z.of_nat (Z.to_nat (b - a))) by lia.
  apply (leb_chain setpointOf).
  - apply step_table. lia.
  - intros i Hi. apply step_table; lia.
Qed.

End SetpointReader.

(* ================================================================== *)
(** ** Status display: classification *)

Section Classification.

Import StatusLeds.

Variable o : StatusLeds.t.
Variables tempF setPointF : float.

Local Notation "'halfBand'" := (_hysteresisF o * F32.lit 1 2)%f32.

(** With thresholds that are numbers the if-chain is exhaustive before its
    final [else]. *)
Lemma classify_cases :
  F32.is_nan tempF = false ->
  F32.is_nan setPointF = false ->
  F32.is_nan (setPointF - halfBand)%f32 = false ->
  F32.is_nan (setPointF + halfBand)%f32 = false ->
  let r := classify (_hysteresisF o) tempF setPointF in
  r = Below \/ r = InBandBelow \/ r = InBandAbove \/ r = Above.
Proof.
  intros Ht Hs Hlo Hhi. unfold classify.
  destruct (tempF <? setPointF - halfBand)%f32 eqn:E1; [now left|].
  apply ltb_false_geb in E1; auto. unfold F32.geb, F32.gtb. rewrite E1.
  destruct (tempF <=? setPointF)%f32 eqn:E2; [now right; left|].
  apply leb_false_gtb in E2; auto. rewrite (ltb_leb _ _ E2).
  destruct (tempF <=? setPointF + halfBand)%f32 eqn:E3;
    [now right; right; left|].
  apply leb_false_gtb in E3; auto. rewrite E3. simpl. now right; right; right.
Qed.

(** Equality with the setpoint is caught by the second branch. *)
Lemma classify_equal :
  F32.eqb tempF setPointF = true ->
  (setPointF - halfBand <=? setPointF)%f32 = true ->
  classify (_hysteresisF o) tempF setPointF = InBandBelow.
Proof.
  intros He Hlo. apply eqb_leb in He. destruct He as [H1 H2].
  unfold classify.
  pose proof (leb_trans _ _ _ Hlo H2) as H3.
  rewrite (leb_not_gtb _ _ H3). unfold F32.geb. rewrite H3, H1.
  reflexivity.
Qed.

End Classification.

(** C10. For every temperature and setpoint that are not NaN (the half band
    of the object being finite), [setDisplayState] leaves the region in one
    of Below, InBandBelow, InBandAbove, Above and never in AtSetPoint; a
    temperature equal to the setpoint is classified InBandBelow by the
    second branch (the lower threshold not exceeding the setpoint, as it
    does for the band of the sketch and every setpoint of the dial);
    AtSetPoint is the value the constructor gives to [_region] and
    [_lastRegion]. *)
Theorem setDisplayState_never_AtSetPoint
  (o : StatusLeds.t) (tempF setPointF : float) :
  F32.is_nan tempF = false ->
  F32.is_nan setPointF = false ->
  F32.is_finite (StatusLeds._hysteresisF o * F32.lit 1 2)%f32 = true ->
  let halfBand := (StatusLeds._hysteresisF o * F32.lit 1 2)%f32 in
  let r := StatusLeds.region (StatusLeds.setDisplayState tempF setPointF o) in
  r <> StatusLeds.AtSetPoint
  /\ (r = StatusLeds.Below \/ r = StatusLeds.InBandBelow \/
      r = StatusLeds.InBandAbove \/ r = StatusLeds.Above)
  /\ (F32.eqb tempF setPointF = true ->
      (setPointF - halfBand <=? setPointF)%f32 = true ->
      r = StatusLeds.InBandBelow)
  /\ (forall pot t,
        0 <= pot <= 1023 ->
        F32.eqb t (setpointOf pot) = true ->
        StatusLeds.region
          (StatusLeds.setDisplayState t (setpointOf pot) (statusLeds initial))
        = StatusLeds.InBandBelow)
  /\ (forall a i b h u,
        StatusLeds._region (StatusLeds.new a i b h u) = StatusLeds.AtSetPoint
        /\ StatusLeds._lastRegion (StatusLeds.new a i b h u)
           = StatusLeds.AtSetPoint).
Proof.
  intros Ht Hs Hh halfBand r.
  assert (Hcases : r = StatusLeds.Below \/ r = StatusLeds.InBandBelow \/
                   r = StatusLeds.InBandAbove \/ r = StatusLeds.Above).
  { apply classify_cases; auto.
    - apply sub_finite_not_nan; auto.
    - apply add_finite_not_nan; auto. }
  split; [| split; [exact Hcases | split; [| split]]].
  - destruct Hcases as [H|[H|[H|H]]]; rewrite H; discriminate.
  - intros He Hlo. apply classify_equal; auto.
  - intros pot t Hpot He. apply classify_equal; [exact He|].
    apply (dial_lower_threshold pot Hpot).
  - intros; split; reflexivity.
Qed.

Lemma setDisplayState_never_AtSetPoint_witness :
  StatusLeds.region
    (StatusLeds.setDisplayState (F32.of_Z 72) (F32.of_Z 72)
                                (statusLeds initial))
  <> StatusLeds.AtSetPoint.
Proof.
  refine (proj1 (setDisplayState_never_AtSetPoint
                   (statusLeds initial) (F32.of_Z 72) (F32.of_Z 72) _ _ _));
    vm_compute; reflexivity.
Defined.

(** C4. At a temperature equal to the setpoint the if-chain selects
    InBandBelow: the AtSetPoint branch announced by the class documentation
    is not the one taken. *)
Theorem setDisplayState_at_setpoint :
  StatusLeds.region
    (StatusLeds.setDisplayState (F32.of_Z 72) (F32.of_Z 72)
                                (statusLeds initial))
  = StatusLeds.InBandBelow
  /\ StatusLeds.region
       (StatusLeds.setDisplayState (F32.of_Z 72) (F32.of_Z 72)
                                   (statusLeds initial))
     <> StatusLeds.AtSetPoint.
Proof. split; [vm_compute; reflexivity | vm_compute; discriminate]. Qed.

(* ================================================================== *)
(** ** Heater controller *)

Section HeaterController.

Lemma decide_on (on : bool) (t s h : float) :
  (t <=? s - h)%f32 = true -> decide on t s h = (true, false).
Proof. intros H. unfold decide. rewrite H. reflexivity. Qed.

Lemma decide_off (on : bool) (t s h : float) :
  (s - h <? s + h)%f32 = true ->
  (t >=? s + h)%f32 = true -> decide on t s h = (false, false).
Proof.
  intros Hband H. unfold decide.
  destruct (t <=? s - h)%f32 eqn:E.
  - pose proof (leb_ltb_trans _ _ _ E Hband) as Hlt.
    apply ltb_not_geb in Hlt. unfold F32.geb in H. congruence.
  - rewrite H. reflexivity.
Qed.

Lemma decide_hold (on : bool) (t s h : float) :
  (s - h <? t)%f32 = true -> (t <? s + h)%f32 = true ->
  decide on t s h = (on, true).
Proof.
  intros H1 H2. unfold decide, F32.geb.
  rewrite (ltb_not_geb _ _ H1), (ltb_not_geb _ _ H2). reflexivity.
Qed.

Lemma controlHalfBand_eq : (HYST_F * F32.lit 1 2)%f32 = controlHalfBand.
Proof. vm_compute. reflexivity. Qed.

(** The shape of the state after a tick that executes. *)
Lemma taskUpdateControl_run (now pot : Z) (st : State) :
  CONTROL_UPDATE_MS <= usub now (lastControlMs st) ->
  let d := decide (heaterOn st) (filteredTempF st) (setpointOf pot)
                  controlHalfBand in
  let st' := taskUpdateControl now pot st in
  heaterOn st' = fst d
  /\ inDeadband st' = snd d
  /\ lastControlMs st' = now
  /\ trace st' = trace st ++ [AnalogRead POT_PIN pot;
                              DigitalWrite SSR_PIN (level_of (fst d))]
  /\ filteredTempF st' = filteredTempF st
  /\ lastTempSampleMs st' = lastTempSampleMs st
  /\ statusLeds st' = statusLeds st
  /\ setPointF st'
     = setPointF (snd (readSetpointF pot (set_lastControlMs now st))).
Proof.
  intros Hdue d st'. subst d st'. unfold taskUpdateControl.
  apply Z.ltb_ge in Hdue. rewrite Hdue.
  pose proof (readSetpointF_value pot (set_lastControlMs now st)) as Hv.
  pose proof (readSetpointF_trace pot (set_lastControlMs now st)) as Ht.
  pose proof (readSetpointF_frame pot (set_lastControlMs now st)) as Hf.
  destruct (readSetpointF pot (set_lastControlMs now st)) as [setF st1].
  cbn [fst snd] in Hv, Ht, Hf. cbv zeta in Hf.
  destruct Hf as (Hf1 & Hf2 & Hf3 & Hf4 & Hf5 & Hf6).
  state_simpl. subst setF. rewrite Hf1, Hf2, controlHalfBand_eq.
  destruct (decide (heaterOn st) (filteredTempF st) (setpointOf pot)
                   controlHalfBand) as [wantOn dead].
  state_simpl. rewrite Ht, <- app_assoc. repeat split; auto.
Qed.

Lemma taskUpdateControl_skip (now pot : Z) (st : State) :
  usub now (lastControlMs st) < CONTROL_UPDATE_MS ->
  taskUpdateControl now pot st = st.
Proof.
  intros H. unfold taskUpdateControl. apply Z.ltb_lt in H. rewrite H.
  reflexivity.
Qed.

End HeaterController.

(** C1. In a control tick that executes, with filtered temperature [t],
    the setpoint [s] read from the dial in that tick (the dial sample being
    a 10-bit conversion result, 0 to 1023) and [h] half the hysteresis
    width: [t <= s - h] turns the heater on and the SSR line is written
    HIGH, [t >= s + h] turns it off and the line is written LOW,
    [s - h < t < s + h] leaves the heater as it was and writes the level of
    that state again; and in each case, also when no comparison holds, the
    tick ends with one write of the SSR line, HIGH when the resulting
    heater state is on and LOW when it is off. *)
Theorem taskUpdateControl_hysteresis (now pot : Z) (st : State) :
  CONTROL_UPDATE_MS <= usub now (lastControlMs st) ->
  0 <= pot <= 1023 ->
  let t := filteredTempF st in
  let s := fst (readSetpointF pot (set_lastControlMs now st)) in
  let h := (HYST_F * F32.lit 1 2)%f32 in
  let st' := taskUpdateControl now pot st in
  ((t <=? s - h)%f32 = true ->
   heaterOn st' = true
   /\ trace st' = trace st ++ [AnalogRead POT_PIN pot;
                               DigitalWrite SSR_PIN HIGH])
  /\ ((t >=? s + h)%f32 = true ->
      heaterOn st' = false
      /\ trace st' = trace st ++ [AnalogRead POT_PIN pot;
                                  DigitalWrite SSR_PIN LOW])
  /\ ((s - h <? t)%f32 = true -> (t <? s + h)%f32 = true ->
      heaterOn st' = heaterOn st
      /\ trace st' = trace st ++ [AnalogRead POT_PIN pot;
                                  DigitalWrite SSR_PIN
                                    (if heaterOn st then HIGH else LOW)])
  /\ trace st' = trace st ++ [AnalogRead POT_PIN pot;
                              DigitalWrite SSR_PIN
                                (if heaterOn st' then HIGH else LOW)]
  /\ (heaterOn st' = true ->
      trace st' = trace st ++ [AnalogRead POT_PIN pot;
                               DigitalWrite SSR_PIN HIGH])
  /\ (heaterOn st' = false ->
      trace st' = trace st ++ [AnalogRead POT_PIN pot;
                               DigitalWrite SSR_PIN LOW]).
Proof.
  intros Hdue Hpot t s h st'.
  destruct (taskUpdateControl_run now pot st Hdue)
    as (Hon & _ & _ & Htr & _).
  fold st' in Hon, Htr. subst s. rewrite readSetpointF_value.
  subst h. rewrite controlHalfBand_eq. subst t.
  split; [| split; [| split; [| split; [| split]]]].
  - intros H. rewrite Htr, Hon, (decide_on _ _ _ _ H). split; reflexivity.
  - intros H.
    rewrite Htr, Hon, (decide_off _ _ _ _ (band_ordered pot Hpot) H).
    split; reflexivity.
  - intros H1 H2. rewrite Htr, Hon, (decide_hold _ _ _ _ H1 H2).
    split; reflexivity.
  - rewrite Htr, Hon. reflexivity.
  - intros Hs. rewrite Htr, <- Hon, Hs. reflexivity.
  - intros Hs. rewrite Htr, <- Hon, Hs. reflexivity.
Qed.

Lemma taskUpdateControl_hysteresis_witness :
  (heaterOn (taskUpdateControl 1000 1023 initial) = true
   /\ trace (taskUpdateControl 1000 1023 initial)
      = trace initial ++ [AnalogRead POT_PIN 1023; DigitalWrite SSR_PIN HIGH])
  /\ (heaterOn (taskUpdateControl 1000 0 (set_heaterOn true initial)) = false
      /\ trace (taskUpdateControl 1000 0 (set_heaterOn true initial))
         = trace (set_heaterOn true initial)
           ++ [AnalogRead POT_PIN 0; DigitalWrite SSR_PIN LOW])
  /\ (heaterOn (taskUpdateControl 1000 512 (set_heaterOn true initial))
      = heaterOn (set_heaterOn true initial)
      /\ trace (taskUpdateControl 1000 512 (set_heaterOn true initial))
         = trace (set_heaterOn true initial)
           ++ [AnalogRead POT_PIN 512;
               DigitalWrite SSR_PIN
                 (if heaterOn (set_heaterOn true initial)
                  then HIGH else LOW)]).
Proof.
  split; [| split].
  - refine (proj1 (taskUpdateControl_hysteresis 1000 1023 initial _ _) _).
    + vm_compute. discriminate.
    + lia.
    + vm_compute. reflexivity.
  - refine (proj1 (proj2 (taskUpdateControl_hysteresis
                            1000 0 (set_heaterOn true initial) _ _)) _).
    + vm_compute. discriminate.
    + lia.
    + vm_compute. reflexivity.
  - refine (proj1 (proj2 (proj2 (taskUpdateControl_hysteresis
                                   1000 512 (set_heaterOn true initial)
                                   _ _))) _ _).
    + vm_compute. discriminate.
    + lia.
    + vm_compute. reflexivity.
    + vm_compute. reflexivity.
Defined.

(** C6. The setpoint mapping returns [MIN_SET_F] for the sample 0,
    [MID_SET_F] at the raw value [MID_RAW] and [MAX_SET_F] for the sample
    1023; and for two samples [a <= b] of the range 0 to 1023 that lie in the
    same segment, the setpoint of [b] is greater than or equal to that of
    [a]. *)
Theorem setpoint_anchors_monotone (a b : Z) :
  0 <= a -> a <= b -> b <= 1023 ->
  (F32.of_Z a <=? MID_RAW)%f32 = (F32.of_Z b <=? MID_RAW)%f32 ->
  (forall st, fst (readSetpointF 0 st) = MIN_SET_F)
  /\ setpointMap MIN_SET_F MID_SET_F MAX_SET_F MID_RAW FULL_RAW MID_RAW
     = MID_SET_F
  /\ (forall st, fst (readSetpointF 1023 st) = MAX_SET_F)
  /\ (forall st,
         (fst (readSetpointF a st) <=? fst (readSetpointF b st))%f32 = true).
Proof.
  intros Ha Hab Hb Hseg. split; [| split; [| split]].
  - intros st. rewrite readSetpointF_value. vm_compute. reflexivity.
  - vm_compute. reflexivity.
  - intros st. rewrite readSetpointF_value. vm_compute. reflexivity.
  - intros st. rewrite !readSetpointF_value.
    apply setpointOf_monotone; assumption.
Qed.

Lemma setpoint_anchors_monotone_witness :
  (fst (readSetpointF 100 initial) <=? fst (readSetpointF 300 initial))%f32
  = true
  /\ (fst (readSetpointF 600 initial) <=? fst (readSetpointF 1000 initial))%f32
     = true.
Proof.
  split.
  - apply (setpoint_anchors_monotone 100 300); try lia.
    vm_compute. reflexivity.
  - apply (setpoint_anchors_monotone 600 1000); try lia.
    vm_compute. reflexivity.
Defined.

(* ================================================================== *)
(** ** Sensor reader *)

Section SensorReader.

Local Notation "'vLow'" := (F32.lit 2 10).
Local Notation "'vHigh'" := (F32.lit 28 10).

Lemma vLow_lt_vHigh : (vLow <? vHigh)%f32 = true.
Proof. vm_compute. reflexivity. Qed.

Lemma vLow_not_gt_vHigh : (vLow >? vHigh)%f32 = false.
Proof. vm_compute. reflexivity. Qed.

Lemma clampVoltage_low (v : float) :
  (v <? vLow)%f32 = true -> clampVoltage v = vLow.
Proof.
  intros H. unfold clampVoltage.
  rewrite H, vLow_not_gt_vHigh. reflexivity.
Qed.

Lemma clampVoltage_high (v : float) :
  (v >? vHigh)%f32 = true -> clampVoltage v = vHigh.
Proof.
  intros H. unfold clampVoltage.
  destruct (v <? vLow)%f32 eqn:E.
  - exfalso.
    pose proof (leb_ltb_trans _ _ _ (ltb_leb _ _ E) vLow_lt_vHigh) as Hlt.
    apply ltb_not_geb in Hlt. unfold F32.gtb in H. apply ltb_leb in H.
    congruence.
  - rewrite H. reflexivity.
Qed.

Lemma clampVoltage_inside (v : float) :
  (v <? vLow)%f32 = false -> (v >? vHigh)%f32 = false -> clampVoltage v = v.
Proof.
  intros H1 H2. unfold clampVoltage. rewrite H1, H2.
  reflexivity.
Qed.

Lemma clampVoltage_not_nan (v : float) :
  F32.is_nan v = false -> F32.is_nan (clampVoltage v) = false.
Proof.
  intros Hv. unfold clampVoltage.
  destruct (v <? vLow)%f32.
  - rewrite vLow_not_gt_vHigh. vm_compute. reflexivity.
  - destruct (v >? vHigh)%f32; [vm_compute; reflexivity | exact Hv].
Qed.

(** The clamped voltage lies between the two bounds. *)
Lemma clampVoltage_range (v : float) :
  F32.is_nan v = false ->
  (vLow <=? clampVoltage v)%f32 = true /\ (clampVoltage v <=? vHigh)%f32 = true.
Proof.
  intros Hv. unfold clampVoltage.
  assert (HL : F32.is_nan vLow = false) by (vm_compute; reflexivity).
  assert (HH : F32.is_nan vHigh = false) by (vm_compute; reflexivity).
  destruct (v <? vLow)%f32 eqn:E1.
  - rewrite vLow_not_gt_vHigh. split; [apply leb_refl, HL|].
    apply ltb_leb, vLow_lt_vHigh.
  - destruct (v >? vHigh)%f32 eqn:E2.
    + split; [apply ltb_leb, vLow_lt_vHigh | apply leb_refl, HH].
    + split; [apply ltb_false_geb; auto|].
      unfold F32.gtb in E2. apply ltb_false_geb; auto.
Qed.

Lemma sensorVoltage_not_nan (analogRead : nat -> Z) :
  F32.is_nan (sensorVoltage analogRead) = false.
Proof.
  unfold sensorVoltage.
  apply div_not_nan; [| vm_compute; reflexivity ..].
  apply mul_not_nan; [| vm_compute; reflexivity ..].
  apply div_not_nan; [| vm_compute; reflexivity ..].
  apply binary_normalize_not_nan.
Qed.

Lemma lm19Transfer_not_nan (v : float) :
  F32.is_nan v = false -> F32.is_nan (lm19Transfer v) = false.
Proof.
  intros Hv. unfold lm19Transfer.
  apply div_not_nan; [| vm_compute; reflexivity ..].
  apply sub_not_nan; [reflexivity | exact Hv].
Qed.

End SensorReader.

(** C8. For every sequence of conversions, [readTemperatureC] applies the
    linear transfer function to the voltage clamped to [0.2, 2.8]: a voltage
    below 0.2 gives the temperature of 0.2, a voltage above 2.8 the
    temperature of 2.8, any other voltage its own temperature; the clamped
    voltage lies within the two bounds and the result is a number for every
    input. *)
Theorem readTemperatureC_clamp (analogRead : nat -> Z) :
  let v := sensorVoltage analogRead in
  ((v <? F32.lit 2 10)%f32 = true ->
   readTemperatureC analogRead = lm19Transfer (F32.lit 2 10))
  /\ ((v >? F32.lit 28 10)%f32 = true ->
      readTemperatureC analogRead = lm19Transfer (F32.lit 28 10))
  /\ ((v <? F32.lit 2 10)%f32 = false -> (v >? F32.lit 28 10)%f32 = false ->
      readTemperatureC analogRead = lm19Transfer v)
  /\ (F32.lit 2 10 <=? clampVoltage v)%f32 = true
  /\ (clampVoltage v <=? F32.lit 28 10)%f32 = true
  /\ F32.is_nan (readTemperatureC analogRead) = false.
Proof.
  intros v. unfold readTemperatureC. fold v.
  pose proof (sensorVoltage_not_nan analogRead) as Hv. fold v in Hv.
  split; [| split; [| split; [| split; [| split]]]].
  - intros H. rewrite (clampVoltage_low v H). reflexivity.
  - intros H. rewrite (clampVoltage_high v H). reflexivity.
  - intros H1 H2. rewrite (clampVoltage_inside v H1 H2). reflexivity.
  - apply (clampVoltage_range v Hv).
  - apply (clampVoltage_range v Hv).
  - apply lm19Transfer_not_nan, clampVoltage_not_nan, Hv.
Qed.

Lemma readTemperatureC_clamp_witness :
  readTemperatureC (fun _ => 0) = lm19Transfer (F32.lit 2 10)
  /\ readTemperatureC (fun _ => 1023) = lm19Transfer (F32.lit 28 10).
Proof.
  split.
  - refine (proj1 (readTemperatureC_clamp (fun _ => 0)) _).
    vm_compute. reflexivity.
  - refine (proj1 (proj2 (readTemperatureC_clamp (fun _ => 1023))) _).
    vm_compute. reflexivity.
Defined.

(* ================================================================== *)
(** ** Setpoint reader: the interpolation fraction *)

Section Fraction.

Lemma positive_not_zero (x : float) :
  (x >? F32.zero)%f32 = true -> F32.is_zero x = false.
Proof. destruct x as [s|s| |s m e]; try destruct s; intros H;
         try discriminate; reflexivity. Qed.

Lemma zero_not_positive (x : float) :
  F32.is_zero x = true -> (x >? F32.zero)%f32 = false.
Proof. destruct x as [s|s| |s m e]; try destruct s; intros H;
         try discriminate; reflexivity. Qed.

Lemma fractionChecked_total (num spanRaw : float) :
  fractionChecked num spanRaw = Some (fraction num spanRaw).
Proof.
  unfold fractionChecked, fraction, checkedDiv.
  destruct (spanRaw >? F32.zero)%f32 eqn:E; [|reflexivity].
  rewrite (positive_not_zero _ E). reflexivity.
Qed.

End Fraction.

(** C9. The interpolation fraction of either segment is defined for every
    input and every choice of the range constants: the division is performed
    only with a divisor greater than zero, a raw span of zero gives the
    fraction zero, and the mapping returns a value for every raw sample. *)
Theorem setpointMap_total
  (minSet midSet maxSet midRaw fullRaw raw num spanRaw : float) :
  setpointMapChecked minSet midSet maxSet midRaw fullRaw raw
  = Some (setpointMap minSet midSet maxSet midRaw fullRaw raw)
  /\ fractionChecked num spanRaw = Some (fraction num spanRaw)
  /\ (F32.is_zero spanRaw = true -> fraction num spanRaw = F32.zero)
  /\ ((spanRaw >? F32.zero)%f32 = true -> F32.is_zero spanRaw = false)
  /\ (forall pot st,
         fst (readSetpointF pot st)
         = setpointMap MIN_SET_F MID_SET_F MAX_SET_F MID_RAW FULL_RAW
                       (F32.of_Z (wrap16 pot))).
Proof.
  split; [| split; [| split; [| split]]].
  - unfold setpointMapChecked, setpointMap, lowerSegment, upperSegment.
    destruct (raw <=? midRaw)%f32; rewrite fractionChecked_total; reflexivity.
  - apply fractionChecked_total.
  - intros H. unfold fraction. rewrite (zero_not_positive _ H). reflexivity.
  - apply positive_not_zero.
  - intros pot st. apply readSetpointF_value.
Qed.

Lemma setpointMap_total_witness :
  fraction (F32.of_Z 300) (F32.zero - F32.zero)%f32 = F32.zero
  /\ setpointMap MIN_SET_F MID_SET_F MAX_SET_F F32.zero FULL_RAW F32.zero
     = MIN_SET_F.
Proof.
  split.
  - refine (proj1 (proj2 (proj2 (setpointMap_total
              MIN_SET_F MID_SET_F MAX_SET_F F32.zero FULL_RAW F32.zero
              (F32.of_Z 300) (F32.zero - F32.zero)%f32))) _).
    vm_compute. reflexivity.
  - vm_compute. reflexivity.
Defined.

(* ================================================================== *)
(** ** Scheduler *)

Section Scheduler.

Lemma tempReads_app (a b : list Event) :
  tempReads (a ++ b) = (tempReads a + tempReads b)%nat.
Proof. unfold tempReads. rewrite filter_app, length_app. reflexivity. Qed.

Lemma tempReads_sensorReads (adc : nat -> Z) :
  tempReads (sensorReads adc) = 8%nat.
Proof. reflexivity. Qed.

Lemma taskSampleTemperature_skip (now : Z) (adc : nat -> Z) (st : State) :
  usub now (lastTempSampleMs st) < TEMP_SAMPLE_MS ->
  taskSampleTemperature now adc st = st.
Proof.
  intros H. unfold taskSampleTemperature. apply Z.ltb_lt in H. rewrite H.
  reflexivity.
Qed.

Lemma taskSampleTemperature_run (now : Z) (adc : nat -> Z) (st : State) :
  TEMP_SAMPLE_MS <= usub now (lastTempSampleMs st) ->
  let st' := taskSampleTemperature now adc st in
  lastTempSampleMs st' = now
  /\ trace st' = trace st ++ sensorReads adc
  /\ filteredTempF st'
     = (filteredTempF st * (F32.of_Z 1 - TEMP_ALPHA)
        + readTemperatureFOnce adc * TEMP_ALPHA)%f32
  /\ lastControlMs st' = lastControlMs st
  /\ heaterOn st' = heaterOn st
  /\ setPointF st' = setPointF st
  /\ statusLeds st' = statusLeds st.
Proof.
  intros H st'. subst st'. unfold taskSampleTemperature.
  apply Z.ltb_ge in H. rewrite H. repeat split.
Qed.

(** The control task neither touches the sampling timestamp nor reads the
    sensor channel. *)
Lemma taskUpdateControl_sampling (now pot : Z) (st : State) :
  lastTempSampleMs (taskUpdateControl now pot st) = lastTempSampleMs st
  /\ tempReads (trace (taskUpdateControl now pot st)) = tempReads (trace st).
Proof.
  destruct (Z.lt_ge_cases (usub now (lastControlMs st)) CONTROL_UPDATE_MS)
    as [Hlt|Hge].
  - rewrite (taskUpdateControl_skip _ _ _ Hlt). split; reflexivity.
  - destruct (taskUpdateControl_run now pot st Hge)
      as (_ & _ & _ & Htr & _ & Hl & _).
    split; [exact Hl|]. rewrite Htr, tempReads_app. cbn. lia.
Qed.

Lemma tempReads_updateLEDs (now : Z) (o : StatusLeds.t) :
  tempReads (snd (StatusLeds.updateLEDs now o)) = 0%nat.
Proof.
  destruct (updateLEDs_outcome now o); reflexivity.
Qed.

(** One iteration of [loop], seen from the sampling task. *)
Lemma loop_sampling (inp : Inputs) (st : State) :
  let now := wrap32 (millis inp) in
  (usub now (lastTempSampleMs st) < TEMP_SAMPLE_MS ->
   lastTempSampleMs (loop inp st) = lastTempSampleMs st
   /\ tempReads (trace (loop inp st)) = tempReads (trace st))
  /\ (TEMP_SAMPLE_MS <= usub now (lastTempSampleMs st) ->
      lastTempSampleMs (loop inp st) = now
      /\ tempReads (trace (loop inp st)) = (tempReads (trace st) + 8)%nat).
Proof.
  intros now.
  assert (Hloop :
    lastTempSampleMs (loop inp st)
    = lastTempSampleMs (taskSampleTemperature now (tempADC inp) st)
    /\ tempReads (trace (loop inp st))
       = tempReads (trace (taskSampleTemperature now (tempADC inp) st))).
  { unfold loop. fold now.
    set (st1 := taskSampleTemperature now (tempADC inp) st).
    destruct (taskUpdateControl_sampling now (potADC inp) st1) as [H1 H2].
    set (st2 := taskUpdateControl now (potADC inp) st1) in *.
    set (o := StatusLeds.setDisplayState (filteredTempF st2) (setPointF st2)
                                         (statusLeds st2)).
    pose proof (tempReads_updateLEDs now o) as H3.
    change (statusLeds (set_statusLeds o st2)) with o.
    destruct (StatusLeds.updateLEDs now o) as [leds evs].
    cbn [snd] in H3. state_simpl.
    split; [exact H1|]. rewrite tempReads_app, H3, H2. lia. }
  destruct Hloop as [HL HT]. rewrite HL, HT. split; intros H.
  - rewrite (taskSampleTemperature_skip _ _ _ H). split; reflexivity.
  - destruct (taskSampleTemperature_run now (tempADC inp) st H)
      as (H1 & H2 & _).
    split; [exact H1|]. rewrite H2, tempReads_app, tempReads_sensorReads.
    reflexivity.
Qed.

Lemma apart_after (inps : list Inputs) :
  forall (st : State) (Tl : Z),
    lastTempSampleMs st = wrap32 Tl ->
    ascending (Tl :: map millis inps) ->
    apart TEMP_SAMPLE_MS (Tl :: sampleTimes inps st).
Proof.
  induction inps as [|inp rest IH]; intros st Tl Hl Hasc.
  - exact I.
  - cbn [map] in Hasc. pose proof (ascending_head _ _ _ Hasc) as HT.
    apply ascending_tail in Hasc. cbn [sampleTimes].
    destruct (loop_sampling inp st) as [Hskip Hrun].
    destruct (Z.lt_ge_cases (usub (wrap32 (millis inp)) (lastTempSampleMs st))
                            TEMP_SAMPLE_MS) as [Hlt|Hge].
    + destruct (Hskip Hlt) as [H1 H2]. rewrite H2, Nat.ltb_irrefl.
      apply IH; [congruence|]. apply (ascending_lower Tl (millis inp)); auto.
    + destruct (Hrun Hge) as [H1 H2]. rewrite H2.
      replace (tempReads (trace st) <? tempReads (trace st) + 8)%nat
        with true by (symmetry; apply Nat.ltb_lt; lia).
      rewrite Hl, usub_wrap32 in Hge.
      pose proof (wrap32_le (millis inp - Tl) ltac:(lia)) as Hw.
      cbn [apart]. split; [lia|]. apply IH; auto.
Qed.

(** Along iterations at non-decreasing times, two consecutive executions
    of the sampling task are at least [TEMP_SAMPLE_MS] apart. *)
Lemma sampleTimes_apart (inps : list Inputs) :
  forall st : State,
    ascending (map millis inps) ->
    apart TEMP_SAMPLE_MS (sampleTimes inps st).
Proof.
  induction inps as [|inp rest IH]; intros st Hasc.
  - exact I.
  - cbn [map] in Hasc. cbn [sampleTimes].
    destruct (loop_sampling inp st) as [Hskip Hrun].
    destruct (Z.lt_ge_cases (usub (wrap32 (millis inp)) (lastTempSampleMs st))
                            TEMP_SAMPLE_MS) as [Hlt|Hge].
    + destruct (Hskip Hlt) as [H1 H2]. rewrite H2, Nat.ltb_irrefl.
      apply IH. eapply ascending_tail; eauto.
    + destruct (Hrun Hge) as [H1 H2]. rewrite H2.
      replace (tempReads (trace st) <? tempReads (trace st) + 8)%nat
        with true by (symmetry; apply Nat.ltb_lt; lia).
      apply apart_after; auto.
Qed.

Lemma apart_head (d t1 : Z) (ts : list Z) :
  0 <= d -> apart d (t1 :: ts) -> Forall (fun t2 => d <= t2 - t1) ts.
Proof.
  intros Hd. revert t1. induction ts as [|t2 ts IH]; intros t1 H.
  - constructor.
  - cbn [apart] in H. destruct H as [H12 H].
    constructor; [exact H12|].
    apply (Forall_impl _ (P := fun t3 => d <= t3 - t2)); [|apply IH, H].
    intros t3 H23. lia.
Qed.

(** Hence any two executions, consecutive or not, are that far apart. *)
Lemma apart_pairs (d : Z) (ts : list Z) :
  0 <= d -> apart d ts -> ForallOrdPairs (fun t1 t2 => d <= t2 - t1) ts.
Proof.
  intros Hd. induction ts as [|t1 ts IH]; intros H.
  - constructor.
  - constructor; [apply apart_head; assumption|].
    apply IH. destruct ts as [|t2 ts]; [exact I|]. apply H.
Qed.

(** Unsigned subtraction gives the elapsed time across a wrap of the
    counter. *)
Lemma usub_elapsed (T1 T2 : Z) :
  0 <= T2 - T1 < 2 ^ 32 -> usub (wrap32 T2) (wrap32 T1) = T2 - T1.
Proof.
  intros H. rewrite usub_wrap32. unfold wrap32. apply Z.mod_small, H.
Qed.

End Scheduler.

(* ================================================================== *)
(** ** The setpoint seen by the display *)

Section StaleSetpoint.

Lemma updateLEDs_region (now : Z) (o : StatusLeds.t) :
  StatusLeds._region (fst (StatusLeds.updateLEDs now o))
  = StatusLeds._region o.
Proof. destruct (updateLEDs_outcome now o); reflexivity. Qed.

Lemma taskSampleTemperature_frame (now : Z) (adc : nat -> Z) (st : State) :
  let st' := taskSampleTemperature now adc st in
  setPointF st' = setPointF st
  /\ statusLeds st' = statusLeds st
  /\ heaterOn st' = heaterOn st
  /\ lastControlMs st' = lastControlMs st.
Proof.
  unfold taskSampleTemperature.
  destruct (usub now (lastTempSampleMs st) <? TEMP_SAMPLE_MS);
    repeat split.
Qed.

Lemma taskUpdateControl_statusLeds (now pot : Z) (st : State) :
  statusLeds (taskUpdateControl now pot st) = statusLeds st.
Proof.
  destruct (Z.lt_ge_cases (usub now (lastControlMs st)) CONTROL_UPDATE_MS)
    as [Hlt|Hge].
  - rewrite (taskUpdateControl_skip _ _ _ Hlt). reflexivity.
  - apply (taskUpdateControl_run now pot st Hge).
Qed.

Lemma loop_display (inp : Inputs) (st : State) :
  StatusLeds.region (statusLeds (loop inp st))
  = StatusLeds.classify (StatusLeds._hysteresisF (statusLeds st))
                        (filteredTempF (afterControl inp st))
                        (setPointF (afterControl inp st))
  /\ setPointF (loop inp st) = setPointF (afterControl inp st)
  /\ heaterOn (loop inp st) = heaterOn (afterControl inp st).
Proof.
  unfold loop, afterControl.
  set (now := wrap32 (millis inp)).
  set (st1 := taskSampleTemperature now (tempADC inp) st).
  set (st2 := taskUpdateControl now (potADC inp) st1).
  assert (Hleds : statusLeds st2 = statusLeds st).
  { unfold st2. rewrite taskUpdateControl_statusLeds.
    apply (taskSampleTemperature_frame now (tempADC inp) st). }
  set (o := StatusLeds.setDisplayState (filteredTempF st2) (setPointF st2)
                                       (statusLeds st2)).
  change (statusLeds (set_statusLeds o st2)) with o.
  pose proof (updateLEDs_region now o) as Hr.
  destruct (StatusLeds.updateLEDs now o) as [leds evs]. cbn [fst] in Hr.
  state_simpl. unfold StatusLeds.region. rewrite Hr. unfold o.
  rewrite Hleds. repeat split.
Qed.

End StaleSetpoint.



(* ================================================================== *)
(** ** Start-up *)

Section StartUp.

Lemma pin_eqb_eq (a b : Pin) : pin_eqb a b = true <-> a = b.
Proof. destruct a, b; simpl; split; intros H; congruence. Qed.

Lemma pin_eqb_refl (a : Pin) : pin_eqb a a = true.
Proof. destruct a; reflexivity. Qed.

Lemma pin_eqb_sym (a b : Pin) : pin_eqb a b = pin_eqb b a.
Proof. destruct a, b; reflexivity. Qed.

(** Whatever the three pins of the object are, also when some of them
    coincide, each of the start-up methods leaves the lines it wrote low and
    touches no other line. *)
Lemma startup_levels (o : StatusLeds.t) (p : Pin) :
  let mine := pin_eqb p (StatusLeds._abovePin o)
              || pin_eqb p (StatusLeds._inBandPin o)
              || pin_eqb p (StatusLeds._belowPin o) in
  let low := if mine then Some LOW else None in
  levelAfter (primEvents (Boot.begin o)) p = low
  /\ levelAfter (primEvents (Boot.selfTest o)) p = low
  /\ levelAfter (primEvents (Boot.allOff o)) p = low.
Proof.
  destruct o as [a i b h u lu r lr]. cbn [StatusLeds._abovePin
    StatusLeds._inBandPin StatusLeds._belowPin].
  destruct a, i, b, p; repeat split; reflexivity.
Qed.

Lemma selfTest_delay (o : StatusLeds.t) :
  delayTotal (Boot.selfTest o) = 2000.
Proof. reflexivity. Qed.

End StartUp.

(** X1. The start-up methods of StatusLeds, for every assignment of the
    three pins (also one in which pins coincide, with each other or with the
    SSR pin): [begin], [selfTest] and [allOff] each end with every line of
    the object low and write to no other line, [selfTest] blocks for
    2000 ms in all, and [setup] leaves the SSR line and the three indicator
    lines low and touches no other line.  [setup] never writes the SSR line
    high when the SSR pin is none of the indicator pins, and does write it
    high when it is one of them. *)
Theorem startup_leaves_lines_low (st : State) (p : Pin) :
  let o := statusLeds st in
  let mine := pin_eqb p (StatusLeds._abovePin o)
              || pin_eqb p (StatusLeds._inBandPin o)
              || pin_eqb p (StatusLeds._belowPin o) in
  let ssrIsLed := pin_eqb SSR_PIN (StatusLeds._abovePin o)
                  || pin_eqb SSR_PIN (StatusLeds._inBandPin o)
                  || pin_eqb SSR_PIN (StatusLeds._belowPin o) in
  levelAfter (primEvents (Boot.begin o)) p
  = (if mine then Some LOW else None)
  /\ levelAfter (primEvents (Boot.selfTest o)) p
     = (if mine then Some LOW else None)
  /\ levelAfter (primEvents (Boot.allOff o)) p
     = (if mine then Some LOW else None)
  /\ delayTotal (Boot.selfTest o) = 2000
  /\ delayTotal (Boot.setup st) = 2000
  /\ levelAfter (primEvents (Boot.setup st)) p
     = (if mine || pin_eqb p SSR_PIN then Some LOW else None)
  /\ (ssrIsLed = false ->
      ~ In (DigitalWrite SSR_PIN HIGH) (primEvents (Boot.setup st)))
  /\ (ssrIsLed = true ->
      In (DigitalWrite SSR_PIN HIGH) (primEvents (Boot.setup st))).
Proof.
  intros o mine ssrIsLed.
  destruct (startup_levels o p) as (H1 & H2 & H3).
  split; [exact H1|]. split; [exact H2|]. split; [exact H3|].
  split; [reflexivity|]. split; [reflexivity|].
  subst ssrIsLed mine o. destruct st as [f hOn dead sp lt lc o tr].
  cbn [statusLeds]. destruct o as [a i b h u lu r lr].
  cbn [StatusLeds._abovePin StatusLeds._inBandPin StatusLeds._belowPin].
  split; [destruct a, i, b, p; reflexivity|].
  destruct a, i, b; (split; intros Hs;
    [ try discriminate Hs; cbn; intuition discriminate
    | try discriminate Hs; cbn; tauto ]).
Qed.

Lemma startup_leaves_lines_low_witness :
  let twoOnOnePin := set_statusLeds
                       (StatusLeds.new PIN_PB1 PIN_PB1 PIN_PA0
                                       HYST_F LED_UPDATE_MS) initial in
  ~ In (DigitalWrite SSR_PIN HIGH) (primEvents (Boot.setup initial))
  /\ levelAfter (primEvents (Boot.setup initial)) SSR_PIN = Some LOW
  /\ levelAfter (primEvents (Boot.setup initial)) LED_INBAND_PIN = Some LOW
  /\ levelAfter (primEvents (Boot.setup initial)) TEMP_PIN = None
  /\ levelAfter (primEvents (Boot.selfTest (statusLeds twoOnOnePin))) PIN_PB1
     = Some LOW
  /\ levelAfter (primEvents (Boot.setup twoOnOnePin)) PIN_PB1 = Some LOW.
Proof.
  intros twoOnOnePin.
  split; [| split; [| split; [| split; [| split]]]].
  - refine (proj1 (proj2 (proj2 (proj2 (proj2 (proj2 (proj2
             (startup_leaves_lines_low initial SSR_PIN))))))) _).
    reflexivity.
  - exact (proj1 (proj2 (proj2 (proj2 (proj2 (proj2
             (startup_leaves_lines_low initial SSR_PIN))))))).
  - exact (proj1 (proj2 (proj2 (proj2 (proj2 (proj2
             (startup_leaves_lines_low initial LED_INBAND_PIN))))))).
  - exact (proj1 (proj2 (proj2 (proj2 (proj2 (proj2
             (startup_leaves_lines_low initial TEMP_PIN))))))).
  - exact (proj1 (proj2
             (startup_leaves_lines_low twoOnOnePin PIN_PB1))).
  - exact (proj1 (proj2 (proj2 (proj2 (proj2 (proj2
             (startup_leaves_lines_low twoOnOnePin PIN_PB1))))))).
Defined.

(* ================================================================== *)
(** ** The output lines along the main loop *)

Section OutputLines.

Lemma levelAfter_app (a b : list Event) (p : Pin) :
  levelAfter (a ++ b) p = fold_left (drive p) b (levelAfter a p).
Proof. unfold levelAfter. apply fold_left_app. Qed.

(** [loop] is the two tasks followed by the display update. *)
Lemma loop_shape (inp : Inputs) (st : State) :
  let now := wrap32 (millis inp) in
  let st2 := afterControl inp st in
  let o2 := StatusLeds.setDisplayState (filteredTempF st2) (setPointF st2)
                                       (statusLeds st2) in
  loop inp st
  = emit (snd (StatusLeds.updateLEDs now o2))
         (set_statusLeds (fst (StatusLeds.updateLEDs now o2)) st2).
Proof.
  unfold loop, afterControl. cbv zeta. cbn [statusLeds set_statusLeds].
  match goal with
  | |- context [StatusLeds.updateLEDs ?n ?o] =>
      destruct (StatusLeds.updateLEDs n o) as [leds evs]
  end.
  reflexivity.
Qed.

(** What the two tasks do to the lines: nothing to a line other than the
    SSR line, and on the SSR line they keep the level equal to
    [heaterOn]. *)
Lemma afterControl_lines (inp : Inputs) (st : State) :
  statusLeds (afterControl inp st) = statusLeds st
  /\ (forall p, pin_eqb SSR_PIN p = false ->
                levelAfter (trace (afterControl inp st)) p
                = levelAfter (trace st) p)
  /\ (levelAfter (trace st) SSR_PIN = Some (level_of (heaterOn st)) ->
      levelAfter (trace (afterControl inp st)) SSR_PIN
      = Some (level_of (heaterOn (afterControl inp st)))).
Proof.
  unfold afterControl.
  set (now := wrap32 (millis inp)).
  set (st1 := taskSampleTemperature now (tempADC inp) st).
  assert (H1 : statusLeds st1 = statusLeds st
               /\ heaterOn st1 = heaterOn st
               /\ forall p, levelAfter (trace st1) p = levelAfter (trace st) p).
  { destruct (taskSampleTemperature_frame now (tempADC inp) st)
      as (_ & Hl & Hh & _). fold st1 in Hl, Hh.
    split; [exact Hl|]. split; [exact Hh|]. intros p. subst st1.
    destruct (Z.lt_ge_cases (usub now (lastTempSampleMs st)) TEMP_SAMPLE_MS)
      as [Hlt|Hge].
    - rewrite (taskSampleTemperature_skip _ _ _ Hlt). reflexivity.
    - destruct (taskSampleTemperature_run now (tempADC inp) st Hge)
        as (_ & Ht & _).
      rewrite Ht, levelAfter_app. reflexivity. }
  destruct H1 as (Hl1 & Hh1 & Hlev1).
  destruct (Z.lt_ge_cases (usub now (lastControlMs st1)) CONTROL_UPDATE_MS)
    as [Hlt|Hge].
  - rewrite (taskUpdateControl_skip _ _ _ Hlt).
    split; [exact Hl1|]. split; intros; rewrite Hlev1; auto.
    rewrite Hh1. assumption.
  - destruct (taskUpdateControl_run now (potADC inp) st1 Hge)
      as (Hon & _ & _ & Ht & _ & _ & Hl & _).
    split; [rewrite Hl; exact Hl1|].
    split.
    + intros p Hp. rewrite Ht, levelAfter_app. cbn [fold_left drive].
      rewrite Hp. apply Hlev1.
    + intros _. rewrite Ht, levelAfter_app, Hon. cbn [fold_left drive].
      reflexivity.
Qed.

Lemma distinctPins_spec (o : StatusLeds.t) :
  distinctPins o = true ->
  pin_eqb (StatusLeds._abovePin o) (StatusLeds._inBandPin o) = false
  /\ pin_eqb (StatusLeds._abovePin o) (StatusLeds._belowPin o) = false
  /\ pin_eqb (StatusLeds._inBandPin o) (StatusLeds._belowPin o) = false
  /\ pin_eqb (StatusLeds._abovePin o) SSR_PIN = false
  /\ pin_eqb (StatusLeds._inBandPin o) SSR_PIN = false
  /\ pin_eqb (StatusLeds._belowPin o) SSR_PIN = false.
Proof.
  unfold distinctPins. intros H.
  repeat (apply andb_true_iff in H; destruct H as [H ?]).
  repeat split; apply negb_true_iff; assumption.
Qed.

(** One iteration of [loop] keeps the lines in agreement with the state. *)
Lemma loop_linesAgree (inp : Inputs) (st : State) :
  distinctPins (statusLeds st) = true ->
  linesAgree st ->
  distinctPins (statusLeds (loop inp st)) = true
  /\ linesAgree (loop inp st).
Proof.
  intros Hd [Hssr Hled].
  destruct (afterControl_lines inp st) as (Ho & Hother & Hs).
  specialize (Hs Hssr).
  rewrite loop_shape. cbv zeta.
  set (st2 := afterControl inp st) in *.
  set (now := wrap32 (millis inp)).
  set (o2 := StatusLeds.setDisplayState (filteredTempF st2) (setPointF st2)
                                        (statusLeds st2)).
  destruct (distinctPins_spec _ Hd) as (Hai & Hab & Hib & Has & His & Hbs).
  assert (Hpins : StatusLeds._abovePin o2 = StatusLeds._abovePin (statusLeds st)
                  /\ StatusLeds._inBandPin o2
                     = StatusLeds._inBandPin (statusLeds st)
                  /\ StatusLeds._belowPin o2
                     = StatusLeds._belowPin (statusLeds st)
                  /\ StatusLeds._lastRegion o2
                     = StatusLeds._lastRegion (statusLeds st)).
  { unfold o2. rewrite Ho. repeat split. }
  destruct Hpins as (Pa & Pi & Pb & Plr).
  assert (Hled2 :
    (levelAfter (trace st2) (StatusLeds._abovePin (statusLeds st)),
     levelAfter (trace st2) (StatusLeds._inBandPin (statusLeds st)),
     levelAfter (trace st2) (StatusLeds._belowPin (statusLeds st)))
    = ledLevels st).
  { unfold ledLevels. rewrite !Hother; [reflexivity | | |];
      rewrite pin_eqb_sym; assumption. }
  pose proof (updateLEDs_outcome now o2) as Hout.
  destruct (StatusLeds.updateLEDs now o2) as [o' evs]. cbn [fst snd] in *.
  unfold linesAgree, ledLevels. state_simpl.
  inversion Hout as [Hlt E1 E2|Hge Heq E1 E2|Hge Hne f E1 E2]; subst o' evs.
  - rewrite app_nil_r. split; [unfold o2; rewrite Ho; exact Hd|].
    split; [exact Hs|]. rewrite Pa, Pi, Pb, Plr, Hled2. exact Hled.
  - rewrite app_nil_r.
    cbn [StatusLeds.set_lastUpdate StatusLeds._abovePin StatusLeds._inBandPin
         StatusLeds._belowPin StatusLeds._lastRegion].
    split; [unfold o2; rewrite Ho; exact Hd|].
    split; [exact Hs|]. rewrite Pa, Pi, Pb, Plr, Hled2. exact Hled.
  - cbn [StatusLeds.set_lastUpdate StatusLeds.set_lastRegion
         StatusLeds._abovePin StatusLeds._inBandPin StatusLeds._belowPin
         StatusLeds._lastRegion StatusLeds._region].
    split; [unfold o2; rewrite Ho; exact Hd|].
    rewrite !levelAfter_app. cbn [fold_left drive]. rewrite Pa, Pi, Pb.
    rewrite Has, His, Hbs, !pin_eqb_refl.
    rewrite (pin_eqb_sym (StatusLeds._inBandPin (statusLeds st))
                         (StatusLeds._abovePin (statusLeds st))), Hai.
    rewrite (pin_eqb_sym (StatusLeds._belowPin (statusLeds st))
                         (StatusLeds._abovePin (statusLeds st))), Hab.
    rewrite (pin_eqb_sym (StatusLeds._belowPin (statusLeds st))
                         (StatusLeds._inBandPin (statusLeds st))), Hib.
    split; [exact Hs|]. left. unfold shown. subst f.
    destruct (StatusLeds.flags (StatusLeds._region o2)) as [[fa fi] fb].
    reflexivity.
Qed.

Lemma run_linesAgree (inps : list Inputs) :
  forall st,
    distinctPins (statusLeds st) = true ->
    linesAgree st ->
    distinctPins (statusLeds (run inps st)) = true
    /\ linesAgree (run inps st).
Proof.
  induction inps as [|inp rest IH]; intros st Hd Hl; [split; assumption|].
  cbn [run]. destruct (loop_linesAgree inp st Hd Hl) as [Hd' Hl'].
  apply IH; assumption.
Qed.

Lemma booted_linesAgree :
  distinctPins (statusLeds booted) = true /\ linesAgree booted.
Proof.
  split; [reflexivity|]. split; [reflexivity|]. right. split; reflexivity.
Qed.

(** The levels that display each region, row by row. *)
Lemma shown_rows (r : StatusLeds.Region) :
  shown r
  = match r with
    | StatusLeds.Above => (Some HIGH, Some LOW, Some LOW)
    | StatusLeds.InBandAbove => (Some HIGH, Some HIGH, Some LOW)
    | StatusLeds.AtSetPoint => (Some LOW, Some HIGH, Some LOW)
    | StatusLeds.InBandBelow => (Some LOW, Some HIGH, Some HIGH)
    | StatusLeds.Below => (Some LOW, Some LOW, Some HIGH)
    end.
Proof. destruct r; reflexivity. Qed.

End OutputLines.

(** X2. The SSR line carries the heater state: in every state the main
    loop reaches from a state in which the lines agree with the state (as
    after start-up), the last level written to the SSR line is the level of
    [heaterOn], HIGH when the heater is on and LOW when it is off, whatever
    the indicator writes in between. *)
Theorem ssr_line_follows_heaterOn (inps : list Inputs) (st : State) :
  distinctPins (statusLeds st) = true ->
  linesAgree st ->
  levelAfter (trace (run inps st)) SSR_PIN
  = Some (level_of (heaterOn (run inps st)))
  /\ levelAfter (trace (run inps booted)) SSR_PIN
     = Some (level_of (heaterOn (run inps booted)))
  /\ (heaterOn (run inps st) = true ->
      levelAfter (trace (run inps st)) SSR_PIN = Some HIGH)
  /\ (heaterOn (run inps st) = false ->
      levelAfter (trace (run inps st)) SSR_PIN = Some LOW)
  /\ levelAfter (trace (run inps booted)) SSR_PIN
     = Some (if heaterOn (run inps booted) then HIGH else LOW).
Proof.
  intros Hd Hl.
  assert (Hst : levelAfter (trace (run inps st)) SSR_PIN
                = Some (level_of (heaterOn (run inps st))))
    by apply (run_linesAgree inps st Hd Hl).
  assert (Hb : levelAfter (trace (run inps booted)) SSR_PIN
               = Some (level_of (heaterOn (run inps booted)))).
  { destruct booted_linesAgree as [Hd' Hl'].
    apply (run_linesAgree inps booted Hd' Hl'). }
  split; [exact Hst|]. split; [exact Hb|].
  split; [intros Hon; rewrite Hst, Hon; reflexivity|].
  split; [intros Hoff; rewrite Hst, Hoff; reflexivity|].
  exact Hb.
Qed.

Lemma ssr_line_follows_heaterOn_witness :
  let inps := [mkInputs 2000 (fun _ => 100) 900;
               mkInputs 2100 (fun _ => 100) 900;
               mkInputs 3000 (fun _ => 900) 100] in
  let cold := [mkInputs 2000 (fun _ => 900) 900] in
  levelAfter (trace (run inps booted)) SSR_PIN
  = Some (level_of (heaterOn (run inps booted)))
  /\ levelAfter (trace (run cold booted)) SSR_PIN = Some HIGH.
Proof.
  intros inps cold. split.
  - refine (proj1 (ssr_line_follows_heaterOn inps booted _ _)).
    + reflexivity.
    + apply booted_linesAgree.
  - refine (proj1 (proj2 (proj2
              (ssr_line_follows_heaterOn cold booted _ _))) _).
    + reflexivity.
    + apply booted_linesAgree.
    + vm_compute. reflexivity.
Defined.

(** X3. The indicator lines display the region written last: in every
    state the main loop reaches from such a state, the three lines carry the
    combination of [_lastRegion], or they are all still low and
    [_lastRegion] still has the value of the constructor.  The combinations
    are, in the order (above, inBand, below): Above HIGH LOW LOW,
    InBandAbove HIGH HIGH LOW, AtSetPoint LOW HIGH LOW, InBandBelow
    LOW HIGH HIGH, Below LOW LOW HIGH. *)
Theorem leds_display_lastRegion (inps : list Inputs) (st : State) :
  distinctPins (statusLeds st) = true ->
  linesAgree st ->
  let st' := run inps st in
  (ledLevels st' = shown (StatusLeds._lastRegion (statusLeds st'))
   \/ (ledLevels st' = (Some LOW, Some LOW, Some LOW)
       /\ StatusLeds._lastRegion (statusLeds st') = StatusLeds.AtSetPoint))
  /\ (ledLevels st'
      = match StatusLeds._lastRegion (statusLeds st') with
        | StatusLeds.Above => (Some HIGH, Some LOW, Some LOW)
        | StatusLeds.InBandAbove => (Some HIGH, Some HIGH, Some LOW)
        | StatusLeds.AtSetPoint => (Some LOW, Some HIGH, Some LOW)
        | StatusLeds.InBandBelow => (Some LOW, Some HIGH, Some HIGH)
        | StatusLeds.Below => (Some LOW, Some LOW, Some HIGH)
        end
      \/ (ledLevels st' = (Some LOW, Some LOW, Some LOW)
          /\ StatusLeds._lastRegion (statusLeds st')
             = StatusLeds.AtSetPoint)).
Proof.
  intros Hd Hl st'.
  assert (H : ledLevels st' = shown (StatusLeds._lastRegion (statusLeds st'))
              \/ (ledLevels st' = (Some LOW, Some LOW, Some LOW)
                  /\ StatusLeds._lastRegion (statusLeds st')
                     = StatusLeds.AtSetPoint))
    by apply (run_linesAgree inps st Hd Hl).
  split; [exact H|]. rewrite <- shown_rows. exact H.
Qed.

Lemma leds_display_lastRegion_witness :
  let st' := run [mkInputs 2000 (fun _ => 100) 900;
                  mkInputs 2100 (fun _ => 100) 900] booted in
  ledLevels st' = shown (StatusLeds._lastRegion (statusLeds st'))
  \/ (ledLevels st' = (Some LOW, Some LOW, Some LOW)
      /\ StatusLeds._lastRegion (statusLeds st') = StatusLeds.AtSetPoint).
Proof.
  refine (proj1 (leds_display_lastRegion _ booted _ _)).
  - reflexivity.
  - apply booted_linesAgree.
Defined.

(** The display after an iteration whose gate passed. *)
Lemma loop_in_step (inp : Inputs) (st : State) :
  distinctPins (statusLeds st) = true ->
  linesAgree st ->
  StatusLeds._updateIntervalMs (statusLeds st)
  <= usub (wrap32 (millis inp)) (StatusLeds._lastUpdate (statusLeds st)) ->
  let o' := statusLeds (loop inp st) in
  StatusLeds._lastRegion o' = StatusLeds.region o'
  /\ StatusLeds._lastUpdate o' = wrap32 (millis inp)
  /\ (StatusLeds.region o' <> StatusLeds.AtSetPoint ->
      ledLevels (loop inp st) = shown (StatusLeds.region o')).
Proof.
  intros Hd Hl Hgate o'.
  destruct (loop_linesAgree inp st Hd Hl) as [_ [_ Hled]].
  assert (Hsync : StatusLeds._lastRegion o' = StatusLeds.region o'
                  /\ StatusLeds._lastUpdate o' = wrap32 (millis inp)).
  { subst o'. rewrite loop_shape. cbv zeta.
    destruct (afterControl_lines inp st) as (Ho & _ & _).
    set (st2 := afterControl inp st) in *.
    set (o2 := StatusLeds.setDisplayState (filteredTempF st2) (setPointF st2)
                                          (statusLeds st2)).
    assert (Hlu : StatusLeds._lastUpdate o2
                  = StatusLeds._lastUpdate (statusLeds st)
                  /\ StatusLeds._updateIntervalMs o2
                     = StatusLeds._updateIntervalMs (statusLeds st))
      by (unfold o2; rewrite Ho; split; reflexivity).
    destruct Hlu as [Hlu Hiv].
    pose proof (updateLEDs_outcome (wrap32 (millis inp)) o2) as Hout.
    destruct (StatusLeds.updateLEDs (wrap32 (millis inp)) o2) as [o3 evs].
    cbn [fst snd] in *. state_simpl.
    inversion Hout as [Hlt E1 E2|Hge Heq E1 E2|Hge Hne f E1 E2]; subst o3 evs.
    - rewrite Hlu, Hiv in Hlt. lia.
    - split; [symmetry; exact Heq | reflexivity].
    - split; reflexivity. }
  destruct Hsync as [Hsync Hupd].
  split; [exact Hsync|]. split; [exact Hupd|].
  intros Hne. fold o' in Hled. destruct Hled as [Hled|[_ Hinit]].
  - rewrite Hled, Hsync. reflexivity.
  - exfalso. apply Hne. rewrite <- Hsync. exact Hinit.
Qed.

(** X4. When the display gate passes in an iteration of [loop], the
    display is in step with the iteration: [_lastRegion] equals the region
    just computed, [_lastUpdate] is the time of the iteration, and (the
    region being one of the four that a write can introduce) the indicator
    lines carry the combination of that region: in the order (above,
    inBand, below), Above HIGH LOW LOW, InBandAbove HIGH HIGH LOW,
    InBandBelow LOW HIGH HIGH, Below LOW LOW HIGH. *)
Theorem display_in_step_after_gate (inp : Inputs) (st : State) :
  distinctPins (statusLeds st) = true ->
  linesAgree st ->
  StatusLeds._updateIntervalMs (statusLeds st)
  <= usub (wrap32 (millis inp)) (StatusLeds._lastUpdate (statusLeds st)) ->
  let o' := statusLeds (loop inp st) in
  StatusLeds._lastRegion o' = StatusLeds.region o'
  /\ StatusLeds._lastUpdate o' = wrap32 (millis inp)
  /\ (StatusLeds.region o' <> StatusLeds.AtSetPoint ->
      ledLevels (loop inp st) = shown (StatusLeds.region o'))
  /\ (StatusLeds.region o' <> StatusLeds.AtSetPoint ->
      ledLevels (loop inp st)
      = match StatusLeds.region o' with
        | StatusLeds.Above => (Some HIGH, Some LOW, Some LOW)
        | StatusLeds.InBandAbove => (Some HIGH, Some HIGH, Some LOW)
        | StatusLeds.AtSetPoint => (Some LOW, Some HIGH, Some LOW)
        | StatusLeds.InBandBelow => (Some LOW, Some HIGH, Some HIGH)
        | StatusLeds.Below => (Some LOW, Some LOW, Some HIGH)
        end).
Proof.
  intros Hd Hl Hgate o'.
  destruct (loop_in_step inp st Hd Hl Hgate) as (H1 & H2 & H3).
  fold o' in H1, H2, H3.
  split; [exact H1|]. split; [exact H2|]. split; [exact H3|].
  intros Hne. rewrite <- shown_rows. exact (H3 Hne).
Qed.

Lemma display_in_step_after_gate_witness :
  let inp := mkInputs 2000 (fun _ => 329) 900 in
  StatusLeds._lastRegion (statusLeds (loop inp booted))
  = StatusLeds.region (statusLeds (loop inp booted)).
Proof.
  intros inp.
  refine (proj1 (display_in_step_after_gate inp booted _ _ _)).
  - reflexivity.
  - apply booted_linesAgree.
  - vm_compute. discriminate.
Defined.

(* ================================================================== *)
(** ** The heater along the main loop *)

Section HeaterInLoop.

(** The fields of the heater controller after an iteration are those after
    the two tasks. *)
Lemma loop_fields (inp : Inputs) (st : State) :
  heaterOn (loop inp st) = heaterOn (afterControl inp st)
  /\ inDeadband (loop inp st) = inDeadband (afterControl inp st)
  /\ setPointF (loop inp st) = setPointF (afterControl inp st)
  /\ lastControlMs (loop inp st) = lastControlMs (afterControl inp st)
  /\ filteredTempF (loop inp st) = filteredTempF (afterControl inp st)
  /\ lastTempSampleMs (loop inp st) = lastTempSampleMs (afterControl inp st).
Proof. rewrite loop_shape. repeat split. Qed.

Lemma taskSampleTemperature_keeps (now : Z) (adc : nat -> Z) (st : State) :
  let st' := taskSampleTemperature now adc st in
  heaterOn st' = heaterOn st
  /\ inDeadband st' = inDeadband st
  /\ setPointF st' = setPointF st
  /\ lastControlMs st' = lastControlMs st
  /\ ssrWrites (trace st') = ssrWrites (trace st).
Proof.
  unfold taskSampleTemperature.
  destruct (usub now (lastTempSampleMs st) <? TEMP_SAMPLE_MS);
    repeat split.
  state_simpl. unfold ssrWrites. rewrite filter_app, length_app.
  cbn. lia.
Qed.

Lemma decide_changes (on : bool) (t s h : float) :
  fst (decide on t s h) <> on ->
  snd (decide on t s h) = false
  /\ ((t <=? s - h)%f32 = true \/ (t >=? s + h)%f32 = true).
Proof.
  unfold decide.
  destruct (t <=? s - h)%f32; [intros _; split; auto|].
  destruct (t >=? s + h)%f32; [intros _; split; auto|].
  cbn. intros H. contradiction H. reflexivity.
Qed.

End HeaterInLoop.

(** X5. An iteration of [loop] in which the control task is not due leaves
    the heater state, the dead-band flag, the global setpoint and the
    control timestamp as they were.  When an iteration changes the heater
    state, the control task was due, the filtered temperature was at or
    beyond one of the two thresholds of the setpoint just read, and the
    dead-band flag is cleared. *)
Theorem heater_changes_only_in_tick (inp : Inputs) (st : State) :
  let now := wrap32 (millis inp) in
  let t := filteredTempF (afterControl inp st) in
  let s := setpointOf (potADC inp) in
  let h := controlHalfBand in
  (usub now (lastControlMs st) < CONTROL_UPDATE_MS ->
   heaterOn (loop inp st) = heaterOn st
   /\ inDeadband (loop inp st) = inDeadband st
   /\ setPointF (loop inp st) = setPointF st
   /\ lastControlMs (loop inp st) = lastControlMs st)
  /\ (heaterOn (loop inp st) <> heaterOn st ->
      CONTROL_UPDATE_MS <= usub now (lastControlMs st)
      /\ inDeadband (loop inp st) = false
      /\ ((t <=? s - h)%f32 = true \/ (t >=? s + h)%f32 = true)).
Proof.
  intros now t s h.
  destruct (loop_fields inp st) as (Hh & Hd & Hs & Hc & _).
  rewrite Hh, Hd, Hs, Hc. subst t. unfold afterControl. fold now.
  set (st1 := taskSampleTemperature now (tempADC inp) st).
  destruct (taskSampleTemperature_keeps now (tempADC inp) st)
    as (Hh1 & Hd1 & Hs1 & Hc1 & _).
  fold st1 in Hh1, Hd1, Hs1, Hc1. rewrite <- Hh1, <- Hd1, <- Hs1, <- Hc1.
  split.
  - intros Hlt. rewrite (taskUpdateControl_skip _ _ _ Hlt). repeat split.
  - intros Hne.
    destruct (Z.lt_ge_cases (usub now (lastControlMs st1)) CONTROL_UPDATE_MS)
      as [Hlt|Hge].
    + rewrite (taskUpdateControl_skip _ _ _ Hlt) in Hne. contradiction Hne.
      reflexivity.
    + destruct (taskUpdateControl_run now (potADC inp) st1 Hge)
        as (Hon & Hdead & _ & _ & Hf & _).
      split; [exact Hge|]. rewrite Hon in Hne. rewrite Hdead, Hf.
      apply decide_changes, Hne.
Qed.

Lemma heater_changes_only_in_tick_witness :
  let inp := mkInputs 2400 (fun _ => 329) 900 in
  heaterOn (loop inp (set_lastControlMs 2000 booted))
  = heaterOn (set_lastControlMs 2000 booted).
Proof.
  intros inp.
  refine (proj1 (proj1 (heater_changes_only_in_tick
                          inp (set_lastControlMs 2000 booted)) _)).
  vm_compute. reflexivity.
Defined.

(* ================================================================== *)
(** ** The three gates in an iteration of the main loop *)

Section LoopGates.

Lemma taskUpdateControl_filteredTempF (now pot : Z) (st : State) :
  filteredTempF (taskUpdateControl now pot st) = filteredTempF st.
Proof.
  destruct (Z.lt_ge_cases (usub now (lastControlMs st)) CONTROL_UPDATE_MS)
    as [Hlt|Hge].
  - rewrite (taskUpdateControl_skip _ _ _ Hlt). reflexivity.
  - apply (taskUpdateControl_run now pot st Hge).
Qed.

(** The sampling gate in [loop], seen on the filter. *)
Lemma loop_filter (inp : Inputs) (st : State) :
  let tick := wrap32 (millis inp) in
  (usub tick (lastTempSampleMs st) < TEMP_SAMPLE_MS ->
   filteredTempF (loop inp st) = filteredTempF st)
  /\ (TEMP_SAMPLE_MS <= usub tick (lastTempSampleMs st) ->
      filteredTempF (loop inp st)
      = (filteredTempF st * (F32.of_Z 1 - TEMP_ALPHA)
         + readTemperatureFOnce (tempADC inp) * TEMP_ALPHA)%f32).
Proof.
  intros tick.
  destruct (loop_fields inp st) as (_ & _ & _ & _ & Hf & _).
  rewrite Hf. unfold afterControl. fold tick.
  rewrite taskUpdateControl_filteredTempF.
  split; intros H.
  - rewrite (taskSampleTemperature_skip _ _ _ H). reflexivity.
  - apply (taskSampleTemperature_run tick (tempADC inp) st H).
Qed.

(** The control gate in [loop], seen on the fields of the controller. *)
Lemma loop_control_fields (inp : Inputs) (st : State) :
  let tick := wrap32 (millis inp) in
  let d := decide (heaterOn st) (filteredTempF (loop inp st))
                  (setpointOf (potADC inp)) controlHalfBand in
  (usub tick (lastControlMs st) < CONTROL_UPDATE_MS ->
   lastControlMs (loop inp st) = lastControlMs st
   /\ heaterOn (loop inp st) = heaterOn st
   /\ inDeadband (loop inp st) = inDeadband st
   /\ setPointF (loop inp st) = setPointF st)
  /\ (CONTROL_UPDATE_MS <= usub tick (lastControlMs st) ->
      lastControlMs (loop inp st) = tick
      /\ heaterOn (loop inp st) = fst d
      /\ inDeadband (loop inp st) = snd d).
Proof.
  intros tick d. subst d.
  destruct (loop_fields inp st) as (Hh & Hd & Hs & Hc & Hf & _).
  rewrite Hh, Hd, Hs, Hc, Hf. unfold afterControl. fold tick.
  set (st1 := taskSampleTemperature tick (tempADC inp) st).
  destruct (taskSampleTemperature_keeps tick (tempADC inp) st)
    as (Hh1 & Hd1 & Hs1 & Hc1 & _).
  fold st1 in Hh1, Hd1, Hs1, Hc1.
  rewrite taskUpdateControl_filteredTempF.
  rewrite <- Hh1, <- Hd1, <- Hs1, <- Hc1.
  split; intros H.
  - rewrite (taskUpdateControl_skip _ _ _ H).
    split; [| split; [| split]]; reflexivity.
  - destruct (taskUpdateControl_run tick (potADC inp) st1 H)
      as (Hon & Hdead & Hl & _).
    split; [exact Hl|]. split; [exact Hon | exact Hdead].
Qed.

(** The display gate in [loop]. *)
Lemma loop_display_gate (inp : Inputs) (st : State) :
  let tick := wrap32 (millis inp) in
  let o := statusLeds st in
  let o' := statusLeds (loop inp st) in
  (usub tick (StatusLeds._lastUpdate o) < StatusLeds._updateIntervalMs o ->
   StatusLeds._lastUpdate o' = StatusLeds._lastUpdate o
   /\ StatusLeds._lastRegion o' = StatusLeds._lastRegion o)
  /\ (StatusLeds._updateIntervalMs o <= usub tick (StatusLeds._lastUpdate o) ->
      StatusLeds._lastUpdate o' = tick
      /\ StatusLeds._lastRegion o' = StatusLeds.region o').
Proof.
  intros tick o o'. subst o o'. rewrite loop_shape. cbv zeta. fold tick.
  destruct (afterControl_lines inp st) as (Ho & _ & _).
  set (st2 := afterControl inp st) in *.
  set (o2 := StatusLeds.setDisplayState (filteredTempF st2) (setPointF st2)
                                        (statusLeds st2)).
  assert (Hlu : StatusLeds._lastUpdate o2
                = StatusLeds._lastUpdate (statusLeds st)
                /\ StatusLeds._updateIntervalMs o2
                   = StatusLeds._updateIntervalMs (statusLeds st)
                /\ StatusLeds._lastRegion o2
                   = StatusLeds._lastRegion (statusLeds st))
    by (unfold o2; rewrite Ho; split; [| split]; reflexivity).
  destruct Hlu as (Hlu & Hiv & Hlr).
  pose proof (updateLEDs_outcome tick o2) as Hout.
  destruct (StatusLeds.updateLEDs tick o2) as [o3 evs].
  cbn [fst snd] in *. state_simpl.
  rewrite <- Hlu, <- Hiv, <- Hlr.
  inversion Hout as [Hlt E1 E2|Hge Heq E1 E2|Hge Hne f E1 E2]; subst o3 evs.
  - split; intros H; [split; reflexivity | lia].
  - split; intros H; [lia|]. split; [reflexivity | symmetry; exact Heq].
  - split; intros H; [lia|]. split; reflexivity.
Qed.

(** The calls of an iteration of [loop]: those of the sampling task, then
    those of the control task, then those of the display. *)
Lemma loop_calls (inp : Inputs) (st : State) :
  let tick := wrap32 (millis inp) in
  let o := statusLeds st in
  exists evS evC evD : list Event,
    trace (loop inp st) = trace st ++ evS ++ evC ++ evD
    /\ (usub tick (lastTempSampleMs st) < TEMP_SAMPLE_MS -> evS = [])
    /\ (TEMP_SAMPLE_MS <= usub tick (lastTempSampleMs st) ->
        evS = sensorReads (tempADC inp))
    /\ (usub tick (lastControlMs st) < CONTROL_UPDATE_MS -> evC = [])
    /\ (CONTROL_UPDATE_MS <= usub tick (lastControlMs st) ->
        evC = [AnalogRead POT_PIN (potADC inp);
               DigitalWrite SSR_PIN
                 (if heaterOn (loop inp st) then HIGH else LOW)])
    /\ (usub tick (StatusLeds._lastUpdate o) < StatusLeds._updateIntervalMs o ->
        evD = [])
    /\ (StatusLeds._updateIntervalMs o <= usub tick (StatusLeds._lastUpdate o) ->
        evD = []
        \/ exists la li lb : Level,
            evD = [DigitalWrite (StatusLeds._abovePin o) la;
                   DigitalWrite (StatusLeds._inBandPin o) li;
                   DigitalWrite (StatusLeds._belowPin o) lb]).
Proof.
  intros tick o. subst o.
  destruct (loop_fields inp st) as (Hh & _).
  assert (HS : exists evS : list Event,
    trace (taskSampleTemperature tick (tempADC inp) st) = trace st ++ evS
    /\ (usub tick (lastTempSampleMs st) < TEMP_SAMPLE_MS -> evS = [])
    /\ (TEMP_SAMPLE_MS <= usub tick (lastTempSampleMs st) ->
        evS = sensorReads (tempADC inp))).
  { destruct (Z.lt_ge_cases (usub tick (lastTempSampleMs st)) TEMP_SAMPLE_MS)
      as [Hlt|Hge].
    - exists []. rewrite (taskSampleTemperature_skip _ _ _ Hlt), app_nil_r.
      split; [reflexivity|]. split; intros H; [reflexivity | lia].
    - exists (sensorReads (tempADC inp)).
      split; [apply (taskSampleTemperature_run tick (tempADC inp) st Hge)|].
      split; intros H; [lia | reflexivity]. }
  assert (HC : exists evC : list Event,
    trace (afterControl inp st)
    = trace (taskSampleTemperature tick (tempADC inp) st) ++ evC
    /\ (usub tick (lastControlMs st) < CONTROL_UPDATE_MS -> evC = [])
    /\ (CONTROL_UPDATE_MS <= usub tick (lastControlMs st) ->
        evC = [AnalogRead POT_PIN (potADC inp);
               DigitalWrite SSR_PIN
                 (if heaterOn (loop inp st) then HIGH else LOW)])).
  { rewrite Hh. unfold afterControl. fold tick.
    set (st1 := taskSampleTemperature tick (tempADC inp) st).
    destruct (taskSampleTemperature_keeps tick (tempADC inp) st)
      as (_ & _ & _ & Hc1 & _).
    fold st1 in Hc1. rewrite <- Hc1.
    destruct (Z.lt_ge_cases (usub tick (lastControlMs st1)) CONTROL_UPDATE_MS)
      as [Hlt|Hge].
    - exists []. rewrite (taskUpdateControl_skip _ _ _ Hlt), app_nil_r.
      split; [reflexivity|]. split; intros H; [reflexivity | lia].
    - destruct (taskUpdateControl_run tick (potADC inp) st1 Hge)
        as (Hon & _ & _ & Ht & _).
      eexists. split; [exact Ht|]. split; intros H; [lia|].
      rewrite Hon. reflexivity. }
  assert (HD : exists evD : list Event,
    trace (loop inp st) = trace (afterControl inp st) ++ evD
    /\ (usub tick (StatusLeds._lastUpdate (statusLeds st))
        < StatusLeds._updateIntervalMs (statusLeds st) -> evD = [])
    /\ (StatusLeds._updateIntervalMs (statusLeds st)
        <= usub tick (StatusLeds._lastUpdate (statusLeds st)) ->
        evD = []
        \/ exists la li lb : Level,
            evD = [DigitalWrite (StatusLeds._abovePin (statusLeds st)) la;
                   DigitalWrite (StatusLeds._inBandPin (statusLeds st)) li;
                   DigitalWrite (StatusLeds._belowPin (statusLeds st)) lb])).
  { clear Hh HS HC. rewrite loop_shape. cbv zeta. fold tick.
    destruct (afterControl_lines inp st) as (Ho & _ & _).
    set (st2 := afterControl inp st) in *.
    set (o2 := StatusLeds.setDisplayState (filteredTempF st2) (setPointF st2)
                                          (statusLeds st2)).
    assert (Hlu : StatusLeds._lastUpdate o2
                  = StatusLeds._lastUpdate (statusLeds st)
                  /\ StatusLeds._updateIntervalMs o2
                     = StatusLeds._updateIntervalMs (statusLeds st)
                  /\ StatusLeds._abovePin o2
                     = StatusLeds._abovePin (statusLeds st)
                  /\ StatusLeds._inBandPin o2
                     = StatusLeds._inBandPin (statusLeds st)
                  /\ StatusLeds._belowPin o2
                     = StatusLeds._belowPin (statusLeds st))
      by (unfold o2; rewrite Ho; split; [| split; [| split; [| split]]];
          reflexivity).
    destruct Hlu as (Hlu & Hiv & Pa & Pi & Pb).
    pose proof (updateLEDs_outcome tick o2) as Hout.
    destruct (StatusLeds.updateLEDs tick o2) as [o3 evs].
    cbn [fst snd] in *. state_simpl.
    exists evs. split; [reflexivity|].
    rewrite <- Hlu, <- Hiv, <- Pa, <- Pi, <- Pb.
    inversion Hout as [Hlt E1 E2|Hge Heq E1 E2|Hge Hne f E1 E2]; subst o3 evs.
    - split; intros H; [reflexivity | left; reflexivity].
    - split; intros H; [reflexivity | left; reflexivity].
    - split; intros H; [lia|]. right. do 3 eexists. reflexivity. }
  destruct HS as (evS & TS & S1 & S2).
  destruct HC as (evC & TC & C1 & C2).
  destruct HD as (evD & TD & D1 & D2).
  exists evS, evC, evD.
  split; [rewrite TD, TC, TS, <- !app_assoc; reflexivity|].
  split; [exact S1|]. split; [exact S2|]. split; [exact C1|].
  split; [exact C2|]. split; [exact D1 | exact D2].
Qed.

End LoopGates.

(** C2. Each task runs its body exactly when the unsigned difference
    [now - lastRunTimestamp] has reached its interval, and then records
    [now] as its last run; otherwise the call changes nothing.  The same
    holds of every iteration of [loop], at the time [tick] it reads from the
    millisecond counter: a task that is not due leaves its timestamp and its
    data as they were and makes no call, a task that is due runs its body
    (the eight sensor conversions and the filter step; the dial conversion,
    the decision and the SSR write; the refresh of the display) and its
    timestamp becomes [tick]; the calls of the three tasks follow each other
    in that order.  The unsigned difference is the elapsed time also across
    a wrap of the millisecond counter.  Along iterations of [loop] at
    non-decreasing times, any two executions of the 250 ms sampling task are
    at least 250 ms apart. *)
Theorem scheduler_gating
  (now pot : Z) (adc : nat -> Z) (st : State) (o : StatusLeds.t)
  (inp : Inputs) (inps : list Inputs) :
  ascending (map millis inps) ->
  let tick := wrap32 (millis inp) in
  let st' := loop inp st in
  let leds := statusLeds st in
  let leds' := statusLeds (loop inp st) in
  (* taskSampleTemperature *)
  (usub now (lastTempSampleMs st) < TEMP_SAMPLE_MS ->
   taskSampleTemperature now adc st = st)
  /\ (TEMP_SAMPLE_MS <= usub now (lastTempSampleMs st) ->
      lastTempSampleMs (taskSampleTemperature now adc st) = now
      /\ trace (taskSampleTemperature now adc st)
         = trace st ++ sensorReads adc)
  (* taskUpdateControl *)
  /\ (usub now (lastControlMs st) < CONTROL_UPDATE_MS ->
      taskUpdateControl now pot st = st)
  /\ (CONTROL_UPDATE_MS <= usub now (lastControlMs st) ->
      lastControlMs (taskUpdateControl now pot st) = now
      /\ exists level,
          trace (taskUpdateControl now pot st)
          = trace st ++ [AnalogRead POT_PIN pot; DigitalWrite SSR_PIN level])
  (* StatusLeds::updateLEDs *)
  /\ (usub now (StatusLeds._lastUpdate o) < StatusLeds._updateIntervalMs o ->
      StatusLeds.updateLEDs now o = (o, []))
  /\ (StatusLeds._updateIntervalMs o <= usub now (StatusLeds._lastUpdate o) ->
      StatusLeds._lastUpdate (fst (StatusLeds.updateLEDs now o)) = now)
  (* wrap-around *)
  /\ (forall T1 T2 : Z,
         0 <= T2 - T1 < 2 ^ 32 -> usub (wrap32 T2) (wrap32 T1) = T2 - T1)
  (* an iteration of loop: the sampling task *)
  /\ (usub tick (lastTempSampleMs st) < TEMP_SAMPLE_MS ->
      lastTempSampleMs st' = lastTempSampleMs st
      /\ filteredTempF st' = filteredTempF st
      /\ tempReads (trace st') = tempReads (trace st))
  /\ (TEMP_SAMPLE_MS <= usub tick (lastTempSampleMs st) ->
      lastTempSampleMs st' = tick
      /\ filteredTempF st'
         = (filteredTempF st * (F32.of_Z 1 - TEMP_ALPHA)
            + readTemperatureFOnce (tempADC inp) * TEMP_ALPHA)%f32
      /\ tempReads (trace st') = (tempReads (trace st) + 8)%nat)
  /\ ((tempReads (trace st) < tempReads (trace st'))%nat
      <-> TEMP_SAMPLE_MS <= usub tick (lastTempSampleMs st))
  (* an iteration of loop: the control task *)
  /\ (usub tick (lastControlMs st) < CONTROL_UPDATE_MS ->
      lastControlMs st' = lastControlMs st
      /\ heaterOn st' = heaterOn st
      /\ inDeadband st' = inDeadband st
      /\ setPointF st' = setPointF st)
  /\ (CONTROL_UPDATE_MS <= usub tick (lastControlMs st) ->
      lastControlMs st' = tick
      /\ heaterOn st'
         = fst (decide (heaterOn st) (filteredTempF st')
                       (setpointOf (potADC inp)) controlHalfBand)
      /\ inDeadband st'
         = snd (decide (heaterOn st) (filteredTempF st')
                       (setpointOf (potADC inp)) controlHalfBand))
  (* an iteration of loop: the display *)
  /\ (usub tick (StatusLeds._lastUpdate leds)
      < StatusLeds._updateIntervalMs leds ->
      StatusLeds._lastUpdate leds' = StatusLeds._lastUpdate leds
      /\ StatusLeds._lastRegion leds' = StatusLeds._lastRegion leds)
  /\ (StatusLeds._updateIntervalMs leds
      <= usub tick (StatusLeds._lastUpdate leds) ->
      StatusLeds._lastUpdate leds' = tick
      /\ StatusLeds._lastRegion leds' = StatusLeds.region leds')
  (* an iteration of loop: the calls it makes *)
  /\ (exists evS evC evD : list Event,
         trace st' = trace st ++ evS ++ evC ++ evD
         /\ (usub tick (lastTempSampleMs st) < TEMP_SAMPLE_MS -> evS = [])
         /\ (TEMP_SAMPLE_MS <= usub tick (lastTempSampleMs st) ->
             evS = sensorReads (tempADC inp))
         /\ (usub tick (lastControlMs st) < CONTROL_UPDATE_MS -> evC = [])
         /\ (CONTROL_UPDATE_MS <= usub tick (lastControlMs st) ->
             evC = [AnalogRead POT_PIN (potADC inp);
                    DigitalWrite SSR_PIN
                      (if heaterOn st' then HIGH else LOW)])
         /\ (usub tick (StatusLeds._lastUpdate leds)
             < StatusLeds._updateIntervalMs leds -> evD = [])
         /\ (StatusLeds._updateIntervalMs leds
             <= usub tick (StatusLeds._lastUpdate leds) ->
             evD = []
             \/ exists la li lb : Level,
                 evD = [DigitalWrite (StatusLeds._abovePin leds) la;
                        DigitalWrite (StatusLeds._inBandPin leds) li;
                        DigitalWrite (StatusLeds._belowPin leds) lb]))
  (* no two executions within a window shorter than the interval *)
  /\ TEMP_SAMPLE_MS = 250
  /\ ForallOrdPairs (fun T1 T2 => TEMP_SAMPLE_MS <= T2 - T1)
                    (sampleTimes inps st).
Proof.
  intros Hasc tick st' leds leds'.
  destruct (loop_sampling inp st) as [Gs1 Gs2]. fold tick st' in Gs1, Gs2.
  destruct (loop_filter inp st) as [Gf1 Gf2]. fold tick st' in Gf1, Gf2.
  destruct (loop_control_fields inp st) as [Gc1 Gc2].
  fold tick st' in Gc1, Gc2.
  destruct (loop_display_gate inp st) as [Gd1 Gd2].
  fold tick leds leds' in Gd1, Gd2.
  split; [apply taskSampleTemperature_skip|].
  split.
  { intros H.
    destruct (taskSampleTemperature_run now adc st H) as (H1 & H2 & _).
    split; assumption. }
  split; [apply taskUpdateControl_skip|].
  split.
  { intros H. destruct (taskUpdateControl_run now pot st H)
      as (_ & _ & H1 & H2 & _).
    split; [exact H1|]. eexists. exact H2. }
  split.
  { intros H. unfold StatusLeds.updateLEDs. apply Z.ltb_lt in H. rewrite H.
    reflexivity. }
  split.
  { intros H. destruct (updateLEDs_outcome now o) as [Hlt|Hge Heq|Hge Hne];
      [lia | reflexivity | reflexivity]. }
  split; [apply usub_elapsed|].
  split.
  { intros H. destruct (Gs1 H) as [H1 H2].
    split; [exact H1|]. split; [exact (Gf1 H) | exact H2]. }
  split.
  { intros H. destruct (Gs2 H) as [H1 H2].
    split; [exact H1|]. split; [exact (Gf2 H) | exact H2]. }
  split.
  { destruct (Z.lt_ge_cases (usub tick (lastTempSampleMs st)) TEMP_SAMPLE_MS)
      as [Hlt|Hge].
    - destruct (Gs1 Hlt) as [_ H2]. rewrite H2. split; intros H; lia.
    - destruct (Gs2 Hge) as [_ H2]. rewrite H2. split; intros H; [exact Hge|].
      lia. }
  split; [exact Gc1|]. split; [exact Gc2|].
  split; [exact Gd1|]. split; [exact Gd2|].
  split; [exact (loop_calls inp st)|].
  split; [reflexivity|].
  apply apart_pairs; [discriminate|]. apply sampleTimes_apart, Hasc.
Qed.

Lemma scheduler_gating_witness :
  let inps := map (fun T => mkInputs T (fun _ => 329) 0)
                  [0; 100; 250; 251; 499; 500;
                   4294967200; 4294967396; 4294967456] in
  let inp := mkInputs 250 (fun _ => 329) 0 in
  ForallOrdPairs (fun T1 T2 => TEMP_SAMPLE_MS <= T2 - T1)
                 (sampleTimes inps initial)
  /\ sampleTimes inps initial = [250; 500; 4294967200; 4294967456]
  /\ (lastTempSampleMs (loop inp initial) = wrap32 (millis inp)
      /\ filteredTempF (loop inp initial)
         = (filteredTempF initial * (F32.of_Z 1 - TEMP_ALPHA)
            + readTemperatureFOnce (tempADC inp) * TEMP_ALPHA)%f32
      /\ tempReads (trace (loop inp initial))
         = (tempReads (trace initial) + 8)%nat)
  /\ (lastControlMs (loop inp initial) = lastControlMs initial
      /\ heaterOn (loop inp initial) = heaterOn initial
      /\ inDeadband (loop inp initial) = inDeadband initial
      /\ setPointF (loop inp initial) = setPointF initial)
  /\ (StatusLeds._lastUpdate (statusLeds (loop inp initial))
      = wrap32 (millis inp)
      /\ StatusLeds._lastRegion (statusLeds (loop inp initial))
         = StatusLeds.region (statusLeds (loop inp initial))).
Proof.
  intros inps inp.
  assert (Hasc : ascending (map millis inps))
    by (cbv [inps map millis ascending]; lia).
  pose proof (scheduler_gating 0 0 (fun _ => 0) initial (statusLeds initial)
                               inp inps Hasc) as G.
  cbv zeta in G.
  destruct G as (_ & _ & _ & _ & _ & _ & _ & _ & Gs & _ & Gc & _ & _ & Gd
                 & _ & _ & Gp).
  split; [exact Gp|]. split; [vm_compute; reflexivity|].
  split; [apply Gs; vm_compute; discriminate|].
  split; [apply Gc; vm_compute; reflexivity|].
  apply Gd. vm_compute. discriminate.
Defined.

(* ================================================================== *)
(** ** Cadence of the control task and fairness of the polling *)

Section Cadence.

Lemma ssrWrites_app (a b : list Event) :
  ssrWrites (a ++ b) = (ssrWrites a + ssrWrites b)%nat.
Proof. unfold ssrWrites. rewrite filter_app, length_app. reflexivity. Qed.

(** With indicator pins different from the SSR pin, a call of [updateLEDs]
    does not write the SSR line. *)
Lemma ssrWrites_updateLEDs (now : Z) (o : StatusLeds.t) :
  distinctPins o = true ->
  ssrWrites (snd (StatusLeds.updateLEDs now o)) = 0%nat.
Proof.
  intros Hd. destruct (distinctPins_spec o Hd) as (_ & _ & _ & Ha & Hi & Hb).
  destruct (updateLEDs_outcome now o); try reflexivity.
  unfold ssrWrites. cbn [filter isSsrWrite]. rewrite Ha, Hi, Hb. reflexivity.
Qed.

(** One iteration of [loop], seen from the control task. *)
Lemma loop_control (inp : Inputs) (st : State) :
  distinctPins (statusLeds st) = true ->
  let now := wrap32 (millis inp) in
  distinctPins (statusLeds (loop inp st)) = true
  /\ (usub now (lastControlMs st) < CONTROL_UPDATE_MS ->
      lastControlMs (loop inp st) = lastControlMs st
      /\ ssrWrites (trace (loop inp st)) = ssrWrites (trace st))
  /\ (CONTROL_UPDATE_MS <= usub now (lastControlMs st) ->
      lastControlMs (loop inp st) = now
      /\ ssrWrites (trace (loop inp st)) = (ssrWrites (trace st) + 1)%nat).
Proof.
  intros Hd now.
  destruct (afterControl_lines inp st) as (Ho & _ & _).
  assert (Hpre :
    distinctPins (statusLeds (loop inp st)) = true
    /\ lastControlMs (loop inp st) = lastControlMs (afterControl inp st)
    /\ ssrWrites (trace (loop inp st))
       = ssrWrites (trace (afterControl inp st))).
  { rewrite loop_shape. cbv zeta.
    set (st2 := afterControl inp st) in *.
    set (o2 := StatusLeds.setDisplayState (filteredTempF st2) (setPointF st2)
                                          (statusLeds st2)).
    assert (Hd2 : distinctPins o2 = true) by (unfold o2; rewrite Ho; exact Hd).
    pose proof (ssrWrites_updateLEDs (wrap32 (millis inp)) o2 Hd2) as Hw.
    pose proof (updateLEDs_outcome (wrap32 (millis inp)) o2) as Hout.
    destruct (StatusLeds.updateLEDs (wrap32 (millis inp)) o2) as [o3 evs].
    cbn [fst snd] in *. state_simpl.
    split; [| split; [reflexivity | rewrite ssrWrites_app, Hw; lia]].
    inversion Hout; subst; exact Hd2. }
  destruct Hpre as (Hd' & Hc & Hw). rewrite Hc, Hw.
  split; [exact Hd'|].
  unfold afterControl. fold now.
  set (st1 := taskSampleTemperature now (tempADC inp) st).
  destruct (taskSampleTemperature_keeps now (tempADC inp) st)
    as (_ & _ & _ & Hc1 & Hw1).
  fold st1 in Hc1, Hw1. rewrite <- Hc1, <- Hw1.
  split; intros H.
  - rewrite (taskUpdateControl_skip _ _ _ H). split; reflexivity.
  - destruct (taskUpdateControl_run now (potADC inp) st1 H)
      as (_ & _ & Hl & Ht & _).
    split; [exact Hl|]. rewrite Ht, ssrWrites_app. reflexivity.
Qed.

Lemma ssr_apart_after (inps : list Inputs) :
  forall (st : State) (Tl : Z),
    distinctPins (statusLeds st) = true ->
    lastControlMs st = wrap32 Tl ->
    ascending (Tl :: map millis inps) ->
    apart CONTROL_UPDATE_MS (Tl :: ssrWriteTimes inps st).
Proof.
  induction inps as [|inp rest IH]; intros st Tl Hd Hl Hasc.
  - exact I.
  - cbn [map] in Hasc. pose proof (ascending_head _ _ _ Hasc) as HT.
    apply ascending_tail in Hasc. cbn [ssrWriteTimes].
    destruct (loop_control inp st Hd) as (Hd' & Hskip & Hrun).
    destruct (Z.lt_ge_cases (usub (wrap32 (millis inp)) (lastControlMs st))
                            CONTROL_UPDATE_MS) as [Hlt|Hge].
    + destruct (Hskip Hlt) as [H1 H2]. rewrite H2, Nat.ltb_irrefl.
      apply IH; [exact Hd' | congruence |].
      apply (ascending_lower Tl (millis inp)); auto.
    + destruct (Hrun Hge) as [H1 H2]. rewrite H2.
      replace (ssrWrites (trace st) <? ssrWrites (trace st) + 1)%nat
        with true by (symmetry; apply Nat.ltb_lt; lia).
      rewrite Hl, usub_wrap32 in Hge.
      pose proof (wrap32_le (millis inp - Tl) ltac:(lia)) as Hw.
      cbn [apart]. split; [lia|]. apply IH; auto.
Qed.

Lemma ssrWriteTimes_apart (inps : list Inputs) :
  forall st : State,
    distinctPins (statusLeds st) = true ->
    ascending (map millis inps) ->
    apart CONTROL_UPDATE_MS (ssrWriteTimes inps st).
Proof.
  induction inps as [|inp rest IH]; intros st Hd Hasc.
  - exact I.
  - cbn [map] in Hasc. cbn [ssrWriteTimes].
    destruct (loop_control inp st Hd) as (Hd' & Hskip & Hrun).
    destruct (Z.lt_ge_cases (usub (wrap32 (millis inp)) (lastControlMs st))
                            CONTROL_UPDATE_MS) as [Hlt|Hge].
    + destruct (Hskip Hlt) as [H1 H2]. rewrite H2, Nat.ltb_irrefl.
      apply IH; [exact Hd'|]. eapply ascending_tail; eauto.
    + destruct (Hrun Hge) as [H1 H2]. rewrite H2.
      replace (ssrWrites (trace st) <? ssrWrites (trace st) + 1)%nat
        with true by (symmetry; apply Nat.ltb_lt; lia).
      apply ssr_apart_after; auto.
Qed.

(** Polled at most [g] ms apart, the sampling task runs again less than
    [TEMP_SAMPLE_MS + g] ms after its last run [Tl]; [Tp] is the time of the
    previous iteration. *)
Lemma sampling_soon (g : Z) (inps : list Inputs) :
  0 <= g -> TEMP_SAMPLE_MS + g <= 2 ^ 32 ->
  forall (st : State) (Tl Tp : Z),
    lastTempSampleMs st = wrap32 Tl ->
    Tl <= Tp -> Tp - Tl < TEMP_SAMPLE_MS ->
    chained (fun a b => a <= b <= a + g) (Tp :: map millis inps) ->
    chained (fun a b => TEMP_SAMPLE_MS <= b - a < TEMP_SAMPLE_MS + g)
            (Tl :: sampleTimes inps st)
    /\ (forall inp, In inp inps -> TEMP_SAMPLE_MS <= millis inp - Tl ->
                    sampleTimes inps st <> []).
Proof.
  intros Hg Hbound.
  induction inps as [|inp rest IH]; intros st Tl Tp Hl Hle Hlt Hch.
  - split; [exact I | intros inp []].
  - cbn [map chained] in Hch. destruct Hch as [Hstep Hch].
    cbn [sampleTimes].
    destruct (loop_sampling inp st) as [Hskip Hrun].
    assert (Hd : usub (wrap32 (millis inp)) (lastTempSampleMs st)
                 = millis inp - Tl).
    { rewrite Hl. apply usub_elapsed. unfold TEMP_SAMPLE_MS in *. lia. }
    rewrite Hd in Hskip, Hrun.
    destruct (Z.lt_ge_cases (millis inp - Tl) TEMP_SAMPLE_MS) as [Hs|Hr].
    + destruct (Hskip Hs) as [H1 H2]. rewrite H2, Nat.ltb_irrefl.
      destruct (IH (loop inp st) Tl (millis inp)) as [IH1 IH2];
        [congruence | lia | exact Hs | exact Hch |].
      split; [exact IH1|].
      intros inp' [<-|Hin] Hdue; [lia|]. apply (IH2 inp' Hin Hdue).
    + destruct (Hrun Hr) as [H1 H2]. rewrite H2.
      replace (tempReads (trace st) <? tempReads (trace st) + 8)%nat
        with true by (symmetry; apply Nat.ltb_lt; lia).
      destruct (IH (loop inp st) (millis inp) (millis inp)) as [IH1 _];
        [exact H1 | lia | unfold TEMP_SAMPLE_MS; lia | exact Hch |].
      split; [| intros; discriminate].
      cbn [chained]. split; [lia | exact IH1].
Qed.

End Cadence.

(** X6. The SSR line is written at most once per control interval: along
    iterations of [loop] at non-decreasing times, with indicator pins
    different from the SSR pin, any two iterations that write the SSR line
    are at least 1000 ms apart. *)
Theorem ssr_written_once_per_interval (inps : list Inputs) (st : State) :
  distinctPins (statusLeds st) = true ->
  ascending (map millis inps) ->
  CONTROL_UPDATE_MS = 1000
  /\ ForallOrdPairs (fun T1 T2 => CONTROL_UPDATE_MS <= T2 - T1)
                    (ssrWriteTimes inps st).
Proof.
  intros Hd Hasc. split; [reflexivity|].
  apply apart_pairs; [discriminate|]. apply ssrWriteTimes_apart; assumption.
Qed.

Lemma ssr_written_once_per_interval_witness :
  let inps := map (fun T => mkInputs T (fun _ => 329) 900)
                  [2000; 2500; 2999; 3000; 3001; 4100] in
  ForallOrdPairs (fun T1 T2 => CONTROL_UPDATE_MS <= T2 - T1)
                 (ssrWriteTimes inps booted)
  /\ ssrWriteTimes inps booted = [2000; 3000; 4100].
Proof.
  intros inps. split.
  - refine (proj2 (ssr_written_once_per_interval inps booted _ _)).
    + reflexivity.
    + cbv [inps map millis ascending]. lia.
  - vm_compute. reflexivity.
Defined.

(** X7. A task that is due is delayed by at most one polling gap: when the
    iterations of [loop] follow one another at most [g] ms apart (with
    [250 + g <= 2^32]), each run of the sampling task comes at least 250 and
    less than [250 + g] ms after the previous one, and the task does run
    when an iteration lies 250 ms or more after the last run. *)
Theorem sampling_not_starved
  (g : Z) (inps : list Inputs) (st : State) (Tl Tp : Z) :
  0 <= g -> TEMP_SAMPLE_MS + g <= 2 ^ 32 ->
  lastTempSampleMs st = wrap32 Tl ->
  Tl <= Tp -> Tp - Tl < TEMP_SAMPLE_MS ->
  chained (fun a b => a <= b <= a + g) (Tp :: map millis inps) ->
  chained (fun a b => TEMP_SAMPLE_MS <= b - a < TEMP_SAMPLE_MS + g)
          (Tl :: sampleTimes inps st)
  /\ (forall inp, In inp inps -> TEMP_SAMPLE_MS <= millis inp - Tl ->
                  sampleTimes inps st <> []).
Proof.
  intros Hg Hb Hl Hle Hlt Hch.
  apply (sampling_soon g inps Hg Hb st Tl Tp); assumption.
Qed.

Lemma sampling_not_starved_witness :
  let inps := map (fun T => mkInputs T (fun _ => 329) 900)
                  [2003; 2006; 2009; 2252; 2255; 2258; 2501; 2504; 2507] in
  chained (fun a b => TEMP_SAMPLE_MS <= b - a < TEMP_SAMPLE_MS + 243)
          (2003 :: sampleTimes inps (set_lastTempSampleMs 2003 booted))
  /\ sampleTimes inps (set_lastTempSampleMs 2003 booted) = [2255; 2507].
Proof.
  intros inps. split.
  - refine (proj1 (sampling_not_starved 243 inps
                     (set_lastTempSampleMs 2003 booted) 2003 2003
                     _ _ _ _ _ _)).
    + lia.
    + unfold TEMP_SAMPLE_MS. lia.
    + reflexivity.
    + lia.
    + unfold TEMP_SAMPLE_MS. lia.
    + cbv [inps map millis chained]. lia.
  - vm_compute. reflexivity.
Defined.

(* ================================================================== *)
(** ** Further facts on binary32 values *)

Section MoreFloats.

Lemma ltb_leb_trans (x y z : float) :
  (x <? y)%f32 = true -> (y <=? z)%f32 = true -> (x <? z)%f32 = true.
Proof.
  intros H1 H2. apply ltb_true_iff in H1. apply leb_true_iff in H2.
  destruct H1 as (Hx & _ & H1), H2 as (_ & Hz & H2).
  apply ltb_true_iff. repeat split; auto.
  destruct H2 as [H2|H2]; [eapply lexLt_trans; eauto | rewrite <- H2; auto].
Qed.

Lemma ltb_not_eqb (x y : float) :
  (x <? y)%f32 = true -> F32.eqb x y = false /\ F32.eqb y x = false.
Proof.
  intros H. apply ltb_true_iff in H. destruct H as (_ & _ & H).
  split; apply not_true_iff_false; intros E; apply eqb_true_iff in E;
    destruct E as (_ & _ & E); [rewrite E in H | rewrite <- E in H];
    exact (lexLt_irrefl _ H).
Qed.

Lemma leb_not_nan (x y : float) :
  (x <=? y)%f32 = true -> F32.is_nan x = false /\ F32.is_nan y = false.
Proof. intros H. apply leb_true_iff in H. tauto. Qed.

(** A value between two finite values is finite. *)
Lemma between_finite (a x b : float) :
  F32.is_finite a = true -> F32.is_finite b = true ->
  (a <=? x)%f32 = true -> (x <=? b)%f32 = true -> F32.is_finite x = true.
Proof.
  intros Ha Hb H1 H2. apply leb_true_iff in H1. apply leb_true_iff in H2.
  destruct H1 as (_ & Hx & H1), H2 as (_ & _ & H2).
  destruct x as [sx|sx| |sx mx ex]; try reflexivity; try discriminate.
  destruct sx.
  - destruct a as [sa|sa| |sa ma ea]; try discriminate; try destruct sa;
      cbn in H1; destruct H1 as [H1|H1]; (lia || discriminate).
  - destruct b as [sb|sb| |sb mb eb]; try discriminate; try destruct sb;
      cbn in H2; destruct H2 as [H2|H2]; (lia || discriminate).
Qed.

Lemma add_not_nan (x y : float) :
  F32.is_finite x = true -> F32.is_nan y = false ->
  F32.is_nan (x + y)%f32 = false.
Proof.
  unfold F32.add.
  destruct x as [sx|sx| |sx mx ex], y as [sy|sy| |sy my ey];
    intros Hx Hy; try discriminate; try reflexivity.
  - destruct sx, sy; reflexivity.
  - apply binary_normalize_not_nan.
Qed.

Lemma mul_not_nan_l (x y : float) :
  F32.is_finite x = true -> F32.is_zero x = false -> F32.is_nan y = false ->
  F32.is_nan (x * y)%f32 = false.
Proof.
  unfold F32.mul.
  destruct x as [sx|sx| |sx mx ex], y as [sy|sy| |sy my ey];
    intros Hx Hz Hy; try discriminate; try reflexivity.
  apply binary_round_aux_not_nan. lia.
Qed.

End MoreFloats.

(* ================================================================== *)
(** ** The range of the setpoint *)

Section SetpointRange.

Lemma setpointOf_monotone_all (a b : Z) :
  0 <= a -> a <= b -> b <= 1023 ->
  (setpointOf a <=? setpointOf b)%f32 = true.
Proof.
  intros Ha Hab Hb.
  destruct (Z.le_gt_cases b 511) as [Hb1|Hb1];
    [| destruct (Z.le_gt_cases 512 a) as [Ha1|Ha1]].
  - apply setpointOf_monotone; try lia. rewrite !segment_table by lia. lia.
  - apply setpointOf_monotone; try lia. rewrite !segment_table by lia. lia.
  - apply (leb_trans _ (setpointOf 511)).
    + apply setpointOf_monotone; try lia. rewrite !segment_table by lia. lia.
    + apply (leb_trans _ (setpointOf 512)); [vm_compute; reflexivity|].
      apply setpointOf_monotone; try lia. rewrite !segment_table by lia. lia.
Qed.

Lemma setpointOf_lower_below_mid (a : Z) :
  0 <= a <= 511 -> (setpointOf a <? MID_SET_F)%f32 = true.
Proof.
  intros Ha. apply (leb_ltb_trans _ (setpointOf 511)).
  - apply setpointOf_monotone_all; lia.
  - vm_compute. reflexivity.
Qed.

Lemma setpointOf_upper_above_mid (a : Z) :
  512 <= a <= 1023 -> (MID_SET_F <? setpointOf a)%f32 = true.
Proof.
  intros Ha. apply (ltb_leb_trans _ (setpointOf 512)).
  - vm_compute. reflexivity.
  - apply setpointOf_monotone_all; lia.
Qed.

Lemma setpointOf_bounds (a : Z) :
  0 <= a <= 1023 ->
  (MIN_SET_F <=? setpointOf a)%f32 = true
  /\ (setpointOf a <=? MAX_SET_F)%f32 = true.
Proof.
  intros Ha. split.
  - replace MIN_SET_F with (setpointOf 0) by (vm_compute; reflexivity).
    apply setpointOf_monotone_all; lia.
  - replace MAX_SET_F with (setpointOf 1023) by (vm_compute; reflexivity).
    apply setpointOf_monotone_all; lia.
Qed.

End SetpointRange.

(** X8. Over the samples 0 to 1023 the setpoint returned by
    [readSetpointF] is finite, lies between [MIN_SET_F] and [MAX_SET_F] and
    does not decrease with the sample, also across the two segments.  It is
    below [MID_SET_F] up to the sample 511 and above it from 512 on: no
    sample selects the midpoint temperature itself. *)
Theorem setpoint_range_and_order (a b : Z) (st : State) :
  0 <= a -> a <= b -> b <= 1023 ->
  let s := fst (readSetpointF a st) in
  (s <=? fst (readSetpointF b st))%f32 = true
  /\ (MIN_SET_F <=? s)%f32 = true
  /\ (s <=? MAX_SET_F)%f32 = true
  /\ F32.is_finite s = true
  /\ (a <= 511 -> (s <? MID_SET_F)%f32 = true)
  /\ (512 <= a -> (MID_SET_F <? s)%f32 = true)
  /\ F32.eqb s MID_SET_F = false.
Proof.
  intros Ha Hab Hb s. subst s. rewrite !readSetpointF_value.
  destruct (setpointOf_bounds a ltac:(lia)) as [Hlo Hhi].
  split; [apply setpointOf_monotone_all; lia|].
  split; [exact Hlo|]. split; [exact Hhi|].
  split; [apply (between_finite MIN_SET_F _ MAX_SET_F); auto|].
  split; [intros H; apply setpointOf_lower_below_mid; lia|].
  split; [intros H; apply setpointOf_upper_above_mid; lia|].
  destruct (Z.le_gt_cases a 511) as [H|H].
  - apply (proj1 (ltb_not_eqb _ _ (setpointOf_lower_below_mid a ltac:(lia)))).
  - apply (proj2 (ltb_not_eqb _ _ (setpointOf_upper_above_mid a ltac:(lia)))).
Qed.

Lemma setpoint_range_and_order_witness :
  (fst (readSetpointF 400 initial) <=? fst (readSetpointF 700 initial))%f32
  = true.
Proof.
  refine (proj1 (setpoint_range_and_order 400 700 initial _ _ _)); lia.
Defined.

(* ================================================================== *)
(** ** The setpoint held by the global variable *)

Section GlobalSetpoint.

Lemma wrap16_sample (pot : Z) : 0 <= pot <= 1023 -> wrap16 pot = pot.
Proof. intros H. unfold wrap16. apply Z.mod_small. lia. Qed.

(** An iteration either leaves the global setpoint or stores the setpoint
    of a sample of the upper segment. *)
Lemma loop_setPointF (inp : Inputs) (st : State) :
  0 <= potADC inp <= 1023 ->
  setPointF (loop inp st) = setPointF st
  \/ (512 <= potADC inp
      /\ setPointF (loop inp st) = setpointOf (potADC inp)).
Proof.
  intros Hpot.
  destruct (loop_fields inp st) as (_ & _ & Hs & _). rewrite Hs.
  unfold afterControl.
  set (now := wrap32 (millis inp)).
  set (st1 := taskSampleTemperature now (tempADC inp) st).
  destruct (taskSampleTemperature_keeps now (tempADC inp) st)
    as (_ & _ & Hs1 & _).
  fold st1 in Hs1. rewrite <- Hs1.
  destruct (Z.lt_ge_cases (usub now (lastControlMs st1)) CONTROL_UPDATE_MS)
    as [Hlt|Hge].
  - rewrite (taskUpdateControl_skip _ _ _ Hlt). left. reflexivity.
  - destruct (taskUpdateControl_run now (potADC inp) st1 Hge)
      as (_ & _ & _ & _ & _ & _ & _ & Hsp).
    rewrite Hsp.
    destruct (F32.of_Z (wrap16 (potADC inp)) <=? MID_RAW)%f32 eqn:E.
    + left. rewrite (readSetpointF_lower _ _ E). reflexivity.
    + right. rewrite (readSetpointF_upper _ _ E). split; [|reflexivity].
      rewrite wrap16_sample, segment_table in E by lia. lia.
Qed.

Lemma run_setPointF (inps : list Inputs) :
  forall st,
    Forall (fun inp => 0 <= potADC inp <= 1023) inps ->
    (MID_SET_F <=? setPointF st)%f32 = true ->
    (setPointF st <=? MAX_SET_F)%f32 = true ->
    (MID_SET_F <=? setPointF (run inps st))%f32 = true
    /\ (setPointF (run inps st) <=? MAX_SET_F)%f32 = true.
Proof.
  induction inps as [|inp rest IH]; intros st Hall Hlo Hhi; [split; assumption|].
  cbn [run]. inversion Hall as [|? ? Hpot Hrest]; subst.
  destruct (loop_setPointF inp st Hpot) as [Hsame|[Hup Hnew]].
  - apply IH; [exact Hrest | rewrite Hsame; exact Hlo
               | rewrite Hsame; exact Hhi].
  - apply IH; [exact Hrest | rewrite Hnew | rewrite Hnew].
    + apply ltb_leb, setpointOf_upper_above_mid. lia.
    + apply setpointOf_bounds. lia.
Qed.

End GlobalSetpoint.

(** X9. The setpoint the display works with never falls below the
    midpoint: along every run of the main loop with 10-bit dial samples, from
    a state whose global [setPointF] lies between [MID_SET_F] and
    [MAX_SET_F] (as the initial 72.0 does), the global stays between
    [MID_SET_F] and [MAX_SET_F], since only samples of the upper segment are
    stored in it; the lower half of the dial never reaches the value that
    [loop] hands to [setDisplayState]. *)
Theorem display_setpoint_at_least_mid (inps : list Inputs) (st : State) :
  Forall (fun inp => 0 <= potADC inp <= 1023) inps ->
  (MID_SET_F <=? setPointF st)%f32 = true ->
  (setPointF st <=? MAX_SET_F)%f32 = true ->
  (MID_SET_F <=? setPointF (run inps st))%f32 = true
  /\ (setPointF (run inps st) <=? MAX_SET_F)%f32 = true
  /\ (forall inp,
        0 <= potADC inp <= 1023 ->
        setPointF (loop inp st) = setPointF st
        \/ (512 <= potADC inp
            /\ setPointF (loop inp st) = fst (readSetpointF (potADC inp) st))).
Proof.
  intros Hall Hlo Hhi.
  destruct (run_setPointF inps st Hall Hlo Hhi) as [H1 H2].
  split; [exact H1|]. split; [exact H2|].
  intros inp Hpot. rewrite readSetpointF_value. apply loop_setPointF, Hpot.
Qed.

Lemma display_setpoint_at_least_mid_witness :
  let inps := [mkInputs 2000 (fun _ => 329) 0;
               mkInputs 3000 (fun _ => 329) 100;
               mkInputs 4000 (fun _ => 329) 511] in
  (MID_SET_F <=? setPointF (run inps booted))%f32 = true
  /\ setPointF (run inps booted) = MID_SET_F.
Proof.
  intros inps. split.
  - refine (proj1 (display_setpoint_at_least_mid inps booted _ _ _)).
    + repeat constructor; simpl; lia.
    + vm_compute. reflexivity.
    + vm_compute. reflexivity.
  - vm_compute. reflexivity.
Defined.

(* ================================================================== *)
(** ** The range of the sensor reading *)

Section SensorRange.

Lemma sumSamples_range (adc : nat -> Z) (k : nat) :
  forall (i : nat) (acc : Z),
    (forall j, (j < i + k)%nat -> 0 <= adc j <= 1023) ->
    0 <= acc -> acc + 1023 * Z.of_nat k < 2 ^ 32 ->
    acc <= sumSamples adc k i acc <= acc + 1023 * Z.of_nat k.
Proof.
  induction k as [|k IH]; intros i acc Hadc Hacc Hb; cbn [sumSamples]; [lia|].
  pose proof (Hadc i ltac:(lia)) as Hi.
  assert (Hw : wrap32 (acc + adc i) = acc + adc i)
    by (unfold wrap32; apply Z.mod_small; lia).
  rewrite Hw.
  specialize (IH (S i) (acc + adc i)).
  assert (Hnext : acc + adc i <= sumSamples adc k (S i) (acc + adc i)
                  <= acc + adc i + 1023 * Z.of_nat k).
  { apply IH; [intros j Hj; apply Hadc; lia | lia | lia]. }
  lia.
Qed.

Lemma readTemperatureFOnce_sum (adc : nat -> Z) :
  readTemperatureFOnce adc
  = fahrenheitOfSum (sumSamples adc N_SAMPLES 0%nat 0).
Proof. unfold readTemperatureFOnce, readTemperatureC, sensorVoltage,
         fahrenheitOfSum. reflexivity. Qed.

Lemma descendingFrom_spec (f : Z -> float) (k : nat) :
  forall (z : Z) (prev : float),
    descendingFrom k z prev f = true ->
    (forall i, z < i < z + Z.of_nat k -> (f i <=? f (i - 1)%Z)%f32 = true)
    /\ (0 < Z.of_nat k -> (f z <=? prev)%f32 = true).
Proof.
  induction k as [|k IH]; intros z prev H; [split; intros; lia|].
  cbn [descendingFrom] in H. apply andb_true_iff in H. destruct H as [H0 H].
  destruct (IH (z + 1) (f z) H) as [IH1 IH2].
  split; [| intros _; exact H0].
  intros i Hi. destruct (Z.eq_dec i (z + 1)) as [->|Hne].
  - replace (z + 1 - 1) with z by lia. apply IH2. lia.
  - apply IH1. lia.
Qed.

(** The reading does not increase from one sum of samples to the next. *)
Lemma sensor_table (s : Z) :
  0 < s <= 8184 ->
  (fahrenheitOfSum s <=? fahrenheitOfSum (s - 1))%f32 = true.
Proof.
  intros Hs.
  assert (H : descendingFrom (Z.to_nat 8184) 1 (fahrenheitOfSum 0)
                             fahrenheitOfSum = true)
    by (vm_cast_no_check (eq_refl true)).
  destruct (descendingFrom_spec fahrenheitOfSum (Z.to_nat 8184) 1 _ H)
    as [H1 H2].
  destruct (Z.eq_dec s 1) as [->|Hne]; [apply H2; lia | apply H1; lia].
Qed.

Lemma fahrenheitOfSum_antitone (a b : Z) :
  0 <= a -> a <= b -> b <= 8184 ->
  (fahrenheitOfSum b <=? fahrenheitOfSum a)%f32 = true.
Proof.
  intros Ha Hab Hb.
  pose (h := fun i : Z => fahrenheitOfSum (8184 - i)).
  replace (fahrenheitOfSum b) with (h (8184 - b)) by (unfold h; f_equal; lia).
  replace (fahrenheitOfSum a)
    with (h (8184 - b + Z.of_nat (Z.to_nat (b - a))))
    by (unfold h; f_equal; lia).
  apply (leb_chain h).
  - unfold h. replace (8184 - (8184 - b)) with b by lia.
    destruct (Z.eq_dec b 0) as [->|Hne]; [vm_compute; reflexivity|].
    apply (leb_not_nan _ _ (sensor_table b ltac:(lia))).
  - intros i Hi. unfold h.
    replace (8184 - (i + 1)) with (8184 - i - 1) by lia.
    apply sensor_table. lia.
Qed.

End SensorRange.

(** X10. For eight samples of the range 0 to 1023, [readTemperatureFOnce]
    returns a finite temperature between the reading of a sensor held at the
    upper clamp (all samples 1023, about -112 F) and that of a sensor held at
    the lower clamp (all samples 0, about 289 F); and a larger sum of the
    samples never gives a higher reading. *)
Theorem sensor_reading_range (adc adc' : nat -> Z) :
  (forall j, (j < 8)%nat -> 0 <= adc j <= 1023) ->
  (forall j, (j < 8)%nat -> 0 <= adc' j <= 1023) ->
  let t := readTemperatureFOnce adc in
  F32.is_finite t = true
  /\ (readTemperatureFOnce (fun _ => 1023) <=? t)%f32 = true
  /\ (t <=? readTemperatureFOnce (fun _ => 0))%f32 = true
  /\ (F32.of_Z (-112) <=? t)%f32 = true
  /\ (t <=? F32.of_Z 289)%f32 = true
  /\ (sumSamples adc N_SAMPLES 0%nat 0 <= sumSamples adc' N_SAMPLES 0%nat 0 ->
      (readTemperatureFOnce adc' <=? t)%f32 = true).
Proof.
  intros Hadc Hadc' t. subst t.
  pose proof (sumSamples_range adc 8 0 0 Hadc ltac:(lia) ltac:(cbn; lia)) as Hs.
  pose proof (sumSamples_range adc' 8 0 0 Hadc' ltac:(lia) ltac:(cbn; lia))
    as Hs'.
  change (Z.of_nat 8) with 8 in Hs, Hs'.
  change 8%nat with N_SAMPLES in Hs, Hs'.
  rewrite !readTemperatureFOnce_sum.
  set (s := sumSamples adc N_SAMPLES 0%nat 0) in *.
  set (s' := sumSamples adc' N_SAMPLES 0%nat 0) in *.
  replace (sumSamples (fun _ => 1023) N_SAMPLES 0%nat 0) with 8184
    by (vm_compute; reflexivity).
  replace (sumSamples (fun _ => 0) N_SAMPLES 0%nat 0) with 0
    by (vm_compute; reflexivity).
  assert (Hlo : (fahrenheitOfSum 8184 <=? fahrenheitOfSum s)%f32 = true)
    by (apply fahrenheitOfSum_antitone; lia).
  assert (Hhi : (fahrenheitOfSum s <=? fahrenheitOfSum 0)%f32 = true)
    by (apply fahrenheitOfSum_antitone; lia).
  split; [apply (between_finite (fahrenheitOfSum 8184) _ (fahrenheitOfSum 0));
          auto; vm_compute; reflexivity|].
  split; [exact Hlo|]. split; [exact Hhi|].
  split; [apply (leb_trans _ (fahrenheitOfSum 8184)); auto;
          vm_compute; reflexivity|].
  split; [apply (leb_trans _ (fahrenheitOfSum 0)); auto;
          vm_compute; reflexivity|].
  intros Hle. apply fahrenheitOfSum_antitone; lia.
Qed.

Lemma sensor_reading_range_witness :
  (readTemperatureFOnce (fun _ => 400) <=? readTemperatureFOnce (fun _ => 329))%f32
  = true.
Proof.
  refine (proj2 (proj2 (proj2 (proj2 (proj2
            (sensor_reading_range (fun _ => 329) (fun _ => 400) _ _))))) _).
  - intros j _. lia.
  - intros j _. lia.
  - vm_compute. discriminate.
Defined.

(* ================================================================== *)
(** ** The first iteration after start-up *)

Section FirstIteration.

Lemma readTemperatureFOnce_not_nan (adc : nat -> Z) :
  F32.is_nan (readTemperatureFOnce adc) = false.
Proof.
  unfold readTemperatureFOnce, readTemperatureC.
  apply add_finite_not_nan; [| vm_compute; reflexivity].
  apply div_not_nan; [| vm_compute; reflexivity ..].
  apply mul_not_nan; [| vm_compute; reflexivity ..].
  apply lm19Transfer_not_nan, clampVoltage_not_nan, sensorVoltage_not_nan.
Qed.

(** One step of the filter from a value whose share is finite. *)
Lemma filter_step_not_nan (f t : float) :
  F32.is_finite (f * (F32.of_Z 1 - TEMP_ALPHA))%f32 = true ->
  F32.is_nan t = false ->
  F32.is_nan (f * (F32.of_Z 1 - TEMP_ALPHA) + t * TEMP_ALPHA)%f32 = false.
Proof.
  intros Hf Ht. apply add_not_nan; [exact Hf|].
  apply mul_not_nan; [exact Ht | vm_compute; reflexivity ..].
Qed.

Lemma first_iteration (inp : Inputs) :
  CONTROL_UPDATE_MS <= millis inp < 2 ^ 32 ->
  0 <= potADC inp <= 1023 ->
  let st' := loop inp booted in
  lastTempSampleMs st' = millis inp
  /\ lastControlMs st' = millis inp
  /\ StatusLeds._lastUpdate (statusLeds st') = millis inp
  /\ StatusLeds.region (statusLeds st') <> StatusLeds.AtSetPoint
  /\ ledLevels st' = shown (StatusLeds.region (statusLeds st')).
Proof.
  intros Hm Hpot st'. unfold CONTROL_UPDATE_MS in Hm.
  assert (Hw : wrap32 (millis inp) = millis inp)
    by (unfold wrap32; apply Z.mod_small; lia).
  assert (Hu : usub (millis inp) 0 = millis inp)
    by (unfold usub; rewrite Z.sub_0_r; exact Hw).
  destruct booted_linesAgree as [Hd Hl].
  (* the two tasks *)
  assert (Hs : TEMP_SAMPLE_MS <= usub (millis inp) (lastTempSampleMs booted))
    by (change (lastTempSampleMs booted) with 0; rewrite Hu;
        unfold TEMP_SAMPLE_MS; lia).
  destruct (taskSampleTemperature_run (millis inp) (tempADC inp) booted Hs)
    as (Hs1 & _ & Hs3 & Hs4 & _ & Hs6 & _).
  set (st1 := taskSampleTemperature (millis inp) (tempADC inp) booted) in *.
  assert (Hc : CONTROL_UPDATE_MS <= usub (millis inp) (lastControlMs st1))
    by (rewrite Hs4; change (lastControlMs booted) with 0; rewrite Hu;
        unfold CONTROL_UPDATE_MS; lia).
  destruct (taskUpdateControl_run (millis inp) (potADC inp) st1 Hc)
    as (_ & _ & Hc3 & _ & Hc5 & Hc6 & _).
  destruct (loop_fields inp booted) as (_ & _ & _ & Hlc & Hlf & Hlt).
  unfold afterControl in Hlc, Hlf, Hlt. rewrite Hw in Hlc, Hlf, Hlt.
  fold st1 in Hlc, Hlf, Hlt. fold st' in Hlc, Hlf, Hlt.
  (* the display *)
  assert (Hg : StatusLeds._updateIntervalMs (statusLeds booted)
               <= usub (wrap32 (millis inp))
                       (StatusLeds._lastUpdate (statusLeds booted))).
  { rewrite Hw. change (StatusLeds._lastUpdate (statusLeds booted)) with 0.
    rewrite Hu. change (StatusLeds._updateIntervalMs (statusLeds booted))
      with 200. lia. }
  destruct (loop_in_step inp booted Hd Hl Hg) as (_ & Hup & Hshow).
  fold st' in Hup, Hshow. rewrite Hw in Hup.
  assert (Hregion : StatusLeds.region (statusLeds st')
                    <> StatusLeds.AtSetPoint).
  { destruct (loop_display inp booted) as (Hr & Hsp & _).
    fold st' in Hr, Hsp. rewrite Hr, <- Hsp.
    unfold afterControl. rewrite Hw. fold st1. rewrite Hc5, Hs3.
    assert (Hsn : F32.is_nan (setPointF st') = false).
    { destruct (loop_setPointF inp booted Hpot) as [E|[_ E]];
        fold st' in E; rewrite E; [reflexivity|].
      apply step_table. lia. }
    set (t := (filteredTempF booted * (F32.of_Z 1 - TEMP_ALPHA)
               + readTemperatureFOnce (tempADC inp) * TEMP_ALPHA)%f32).
    assert (Htn : F32.is_nan t = false).
    { apply filter_step_not_nan; [vm_compute; reflexivity|].
      apply readTemperatureFOnce_not_nan. }
    assert (Hhb : F32.is_finite
                    (StatusLeds._hysteresisF (statusLeds booted)
                     * F32.lit 1 2)%f32 = true)
      by (vm_compute; reflexivity).
    pose proof (classify_cases (statusLeds booted) t (setPointF st') Htn Hsn
                  (sub_finite_not_nan _ _ Hsn Hhb)
                  (add_finite_not_nan _ _ Hsn Hhb)) as Hcases.
    cbv zeta in Hcases.
    destruct Hcases as [E|[E|[E|E]]]; rewrite E; discriminate. }
  split; [rewrite Hlt, Hc6; exact Hs1|].
  split; [rewrite Hlc; exact Hc3|].
  split; [exact Hup|]. split; [exact Hregion | exact (Hshow Hregion)].
Qed.

End FirstIteration.

(** X11. The first iteration of [loop] after start-up, at a time of at
    least 1000 ms on the millisecond counter (the self-test alone takes
    2000 ms) and with a 10-bit dial sample, runs all three tasks: the two
    timestamps and [_lastUpdate] take the time of the iteration, the region
    is one of the four other than the constructor's AtSetPoint, and the
    indicator lines, dark until then, display that region: in the order
    (above, inBand, below), Above HIGH LOW LOW, InBandAbove HIGH HIGH LOW,
    InBandBelow LOW HIGH HIGH, Below LOW LOW HIGH. *)
Theorem first_iteration_after_startup (inp : Inputs) :
  CONTROL_UPDATE_MS <= millis inp < 2 ^ 32 ->
  0 <= potADC inp <= 1023 ->
  let st' := loop inp booted in
  lastTempSampleMs st' = millis inp
  /\ lastControlMs st' = millis inp
  /\ StatusLeds._lastUpdate (statusLeds st') = millis inp
  /\ StatusLeds.region (statusLeds st') <> StatusLeds.AtSetPoint
  /\ ledLevels st' = shown (StatusLeds.region (statusLeds st'))
  /\ ledLevels st'
     = match StatusLeds.region (statusLeds st') with
       | StatusLeds.Above => (Some HIGH, Some LOW, Some LOW)
       | StatusLeds.InBandAbove => (Some HIGH, Some HIGH, Some LOW)
       | StatusLeds.AtSetPoint => (Some LOW, Some HIGH, Some LOW)
       | StatusLeds.InBandBelow => (Some LOW, Some HIGH, Some HIGH)
       | StatusLeds.Below => (Some LOW, Some LOW, Some HIGH)
       end.
Proof.
  intros Hm Hpot st'.
  destruct (first_iteration inp Hm Hpot) as (H1 & H2 & H3 & H4 & H5).
  fold st' in H1, H2, H3, H4, H5.
  split; [exact H1|]. split; [exact H2|]. split; [exact H3|].
  split; [exact H4|]. split; [exact H5|].
  rewrite <- shown_rows. exact H5.
Qed.

Lemma first_iteration_after_startup_witness :
  let st' := loop (mkInputs 2000 (fun _ => 329) 900) booted in
  ledLevels st' = shown (StatusLeds.region (statusLeds st')).
Proof.
  refine (proj1 (proj2 (proj2 (proj2 (proj2
            (first_iteration_after_startup
               (mkInputs 2000 (fun _ => 329) 900) _ _)))))).
  - cbn. unfold CONTROL_UPDATE_MS. lia.
  - cbn. lia.
Defined.

(* ================================================================== *)
(** ** A filtered temperature that is not a number *)

Section NotANumber.

Lemma nan_eq (x : float) : F32.is_nan x = true -> x = S754_nan.
Proof. destruct x; try discriminate; reflexivity. Qed.

Lemma ltb_nan_l (x : float) : (S754_nan <? x)%f32 = false.
Proof. destruct x; reflexivity. Qed.

Lemma ltb_nan_r (x : float) : (x <? S754_nan)%f32 = false.
Proof. destruct x; reflexivity. Qed.

Lemma leb_nan_l (x : float) : (S754_nan <=? x)%f32 = false.
Proof. destruct x; reflexivity. Qed.

Lemma leb_nan_r (x : float) : (x <=? S754_nan)%f32 = false.
Proof. destruct x; reflexivity. Qed.

Lemma mul_nan_l (x : float) : (S754_nan * x)%f32 = S754_nan.
Proof. destruct x; reflexivity. Qed.

Lemma add_nan_l (x : float) : (S754_nan + x)%f32 = S754_nan.
Proof. destruct x; reflexivity. Qed.

(** All comparisons of the if-chain fail: the final [else] is taken. *)
Lemma classify_nan (h s : float) :
  StatusLeds.classify h S754_nan s = StatusLeds.AtSetPoint.
Proof.
  unfold StatusLeds.classify, F32.geb, F32.gtb.
  rewrite !ltb_nan_l, !ltb_nan_r, !leb_nan_l, !leb_nan_r. reflexivity.
Qed.

Lemma decide_nan (on : bool) (s h : float) :
  decide on S754_nan s h = (on, true).
Proof.
  unfold decide, F32.geb. rewrite leb_nan_l, leb_nan_r. reflexivity.
Qed.

Lemma loop_nan (inp : Inputs) (st : State) :
  filteredTempF st = S754_nan ->
  filteredTempF (loop inp st) = S754_nan
  /\ heaterOn (loop inp st) = heaterOn st
  /\ StatusLeds.region (statusLeds (loop inp st)) = StatusLeds.AtSetPoint.
Proof.
  intros Hnan.
  destruct (loop_fields inp st) as (Hh & _ & _ & _ & Hf & _).
  destruct (loop_display inp st) as (Hr & _ & _).
  rewrite Hh, Hf, Hr. unfold afterControl.
  set (now := wrap32 (millis inp)).
  set (st1 := taskSampleTemperature now (tempADC inp) st).
  assert (H1 : filteredTempF st1 = S754_nan /\ heaterOn st1 = heaterOn st).
  { destruct (taskSampleTemperature_keeps now (tempADC inp) st) as (Hk & _).
    fold st1 in Hk. split; [|exact Hk]. subst st1.
    destruct (Z.lt_ge_cases (usub now (lastTempSampleMs st)) TEMP_SAMPLE_MS)
      as [Hlt|Hge].
    - rewrite (taskSampleTemperature_skip _ _ _ Hlt). exact Hnan.
    - destruct (taskSampleTemperature_run now (tempADC inp) st Hge)
        as (_ & _ & He & _).
      rewrite He, Hnan, mul_nan_l, add_nan_l. reflexivity. }
  destruct H1 as [Hf1 Hh1].
  assert (H2 : filteredTempF (taskUpdateControl now (potADC inp) st1)
               = S754_nan
               /\ heaterOn (taskUpdateControl now (potADC inp) st1)
                  = heaterOn st).
  { destruct (Z.lt_ge_cases (usub now (lastControlMs st1)) CONTROL_UPDATE_MS)
      as [Hlt|Hge].
    - rewrite (taskUpdateControl_skip _ _ _ Hlt). split; assumption.
    - destruct (taskUpdateControl_run now (potADC inp) st1 Hge)
        as (Hon & _ & _ & _ & Hfk & _).
      rewrite Hon, Hfk, Hf1, decide_nan. split; [reflexivity | exact Hh1]. }
  destruct H2 as [Hf2 Hh2]. rewrite Hf2, Hh2, classify_nan.
  repeat split.
Qed.

Lemma run_nan (inps : list Inputs) :
  forall st,
    filteredTempF st = S754_nan ->
    filteredTempF (run inps st) = S754_nan
    /\ heaterOn (run inps st) = heaterOn st
    /\ (inps <> [] ->
        StatusLeds.region (statusLeds (run inps st)) = StatusLeds.AtSetPoint).
Proof.
  induction inps as [|inp rest IH]; intros st Hnan.
  - split; [exact Hnan|]. split; [reflexivity|]. intros H. contradiction H.
    reflexivity.
  - cbn [run]. destruct (loop_nan inp st Hnan) as (Hf & Hh & Hr).
    destruct (IH (loop inp st) Hf) as (IHf & IHh & IHr).
    split; [exact IHf|]. split; [rewrite IHh; exact Hh|].
    intros _. destruct rest as [|inp' rest']; [exact Hr|].
    apply IHr. discriminate.
Qed.

End NotANumber.

(** X12. A filtered temperature that is NaN is permanent and freezes the
    controller: in every later state of the main loop the filtered
    temperature is still NaN, the heater state is the one it had, and after
    each iteration the display region is AtSetPoint, the region that no
    numeric temperature can produce. *)
Theorem nan_temperature_is_permanent (inps : list Inputs) (st : State) :
  F32.is_nan (filteredTempF st) = true ->
  F32.is_nan (filteredTempF (run inps st)) = true
  /\ heaterOn (run inps st) = heaterOn st
  /\ (inps <> [] ->
      StatusLeds.region (statusLeds (run inps st)) = StatusLeds.AtSetPoint).
Proof.
  intros H. apply nan_eq in H.
  destruct (run_nan inps st H) as (Hf & Hh & Hr).
  rewrite Hf. repeat split; assumption.
Qed.

Lemma nan_temperature_is_permanent_witness :
  let st := set_heaterOn true (set_filteredTempF S754_nan booted) in
  let inps := [mkInputs 2000 (fun _ => 100) 900;
               mkInputs 3000 (fun _ => 100) 900] in
  heaterOn (run inps st) = true.
Proof.
  intros st inps.
  refine (proj1 (proj2 (nan_temperature_is_permanent inps st _))).
  reflexivity.
Defined.

(* ================================================================== *)
(** ** Agreement of the display with the heater controller *)

Section Agreement.

Lemma classify_Below (h t s : float) :
  StatusLeds.classify h t s = StatusLeds.Below ->
  (t <? s - h * F32.lit 1 2)%f32 = true.
Proof.
  unfold StatusLeds.classify.
  destruct (t <? s - h * F32.lit 1 2)%f32; [reflexivity|].
  destruct ((t >=? s - h * F32.lit 1 2)%f32 && (t <=? s)%f32);
    [discriminate|].
  destruct ((t <=? s + h * F32.lit 1 2)%f32 && (t >=? s)%f32);
    [discriminate|].
  destruct (t >? s + h * F32.lit 1 2)%f32; discriminate.
Qed.

Lemma classify_Above (h t s : float) :
  StatusLeds.classify h t s = StatusLeds.Above ->
  (t >? s + h * F32.lit 1 2)%f32 = true.
Proof.
  unfold StatusLeds.classify.
  destruct (t <? s - h * F32.lit 1 2)%f32; [discriminate|].
  destruct ((t >=? s - h * F32.lit 1 2)%f32 && (t <=? s)%f32);
    [discriminate|].
  destruct ((t <=? s + h * F32.lit 1 2)%f32 && (t >=? s)%f32);
    [discriminate|].
  destruct (t >? s + h * F32.lit 1 2)%f32; [reflexivity | discriminate].
Qed.

(** An iteration whose control tick reads a sample of the upper segment:
    the display and the controller work with the same setpoint. *)
Lemma loop_same_setpoint (inp : Inputs) (st : State) :
  CONTROL_UPDATE_MS <= usub (wrap32 (millis inp)) (lastControlMs st) ->
  512 <= potADC inp <= 1023 ->
  StatusLeds._hysteresisF (statusLeds st) = HYST_F ->
  let t := filteredTempF (afterControl inp st) in
  let s := setpointOf (potADC inp) in
  StatusLeds.region (statusLeds (loop inp st))
  = StatusLeds.classify HYST_F t s
  /\ heaterOn (loop inp st) = fst (decide (heaterOn st) t s controlHalfBand).
Proof.
  intros Hdue Hpot Hh t s. subst t s.
  destruct (loop_display inp st) as (Hr & _ & Hon). rewrite Hr, Hon, Hh.
  unfold afterControl.
  set (now := wrap32 (millis inp)) in *.
  set (st1 := taskSampleTemperature now (tempADC inp) st).
  destruct (taskSampleTemperature_keeps now (tempADC inp) st)
    as (Hh1 & _ & _ & Hc1 & _).
  fold st1 in Hh1, Hc1.
  assert (Hdue1 : CONTROL_UPDATE_MS <= usub now (lastControlMs st1))
    by (rewrite Hc1; exact Hdue).
  destruct (taskUpdateControl_run now (potADC inp) st1 Hdue1)
    as (Hon1 & _ & _ & _ & Hf & _ & _ & Hsp).
  assert (Hup : (F32.of_Z (wrap16 (potADC inp)) <=? MID_RAW)%f32 = false).
  { rewrite wrap16_sample, segment_table by lia. apply Z.leb_gt. lia. }
  rewrite Hsp, (readSetpointF_upper _ _ Hup), Hon1, Hf, Hh1.
  split; reflexivity.
Qed.

End Agreement.

(** X13. In an iteration of [loop] whose control tick reads a dial sample
    of the upper segment (512 to 1023), the display and the heater
    controller use the same setpoint and the same half band, and they agree:
    a region Below goes with the heater on and a region Above with the
    heater off after the iteration. *)
Theorem display_agrees_with_heater (inp : Inputs) (st : State) :
  CONTROL_UPDATE_MS <= usub (wrap32 (millis inp)) (lastControlMs st) ->
  512 <= potADC inp <= 1023 ->
  StatusLeds._hysteresisF (statusLeds st) = HYST_F ->
  let r := StatusLeds.region (statusLeds (loop inp st)) in
  setPointF (loop inp st) = fst (readSetpointF (potADC inp) st)
  /\ (r = StatusLeds.Below -> heaterOn (loop inp st) = true)
  /\ (r = StatusLeds.Above -> heaterOn (loop inp st) = false).
Proof.
  intros Hdue Hpot Hh r. subst r.
  destruct (loop_same_setpoint inp st Hdue Hpot Hh) as [Hr Hon].
  rewrite Hr, Hon, readSetpointF_value.
  split; [| split].
  - destruct (loop_setPointF inp st ltac:(lia)) as [Hsame|[_ Hnew]];
      [|exact Hnew].
    destruct (loop_fields inp st) as (_ & _ & Hs & _). rewrite Hs.
    unfold afterControl.
    set (now := wrap32 (millis inp)) in *.
    set (st1 := taskSampleTemperature now (tempADC inp) st).
    destruct (taskSampleTemperature_keeps now (tempADC inp) st)
      as (_ & _ & _ & Hc1 & _).
    fold st1 in Hc1.
    assert (Hdue1 : CONTROL_UPDATE_MS <= usub now (lastControlMs st1))
      by (rewrite Hc1; exact Hdue).
    destruct (taskUpdateControl_run now (potADC inp) st1 Hdue1)
      as (_ & _ & _ & _ & _ & _ & _ & Hsp).
    rewrite Hsp. apply readSetpointF_upper.
    rewrite wrap16_sample, segment_table by lia. apply Z.leb_gt. lia.
  - intros H. apply classify_Below in H. rewrite controlHalfBand_eq in H.
    rewrite (decide_on _ _ _ _ (ltb_leb _ _ H)). reflexivity.
  - intros H. apply classify_Above in H. rewrite controlHalfBand_eq in H.
    unfold F32.gtb in H.
    rewrite (decide_off _ _ _ _ (band_ordered (potADC inp) ltac:(lia))
               (ltb_leb _ _ H)).
    reflexivity.
Qed.

Lemma display_agrees_with_heater_witness :
  let inp := mkInputs 2000 (fun _ => 329) 900 in
  setPointF (loop inp booted) = fst (readSetpointF (potADC inp) booted).
Proof.
  intros inp.
  refine (proj1 (display_agrees_with_heater inp booted _ _ _)).
  - vm_compute. discriminate.
  - cbn. lia.
  - reflexivity.
Defined.
